(** * web-note-player: the range resolver and the playback scheduler

    A shallow embedding of [src/mod.ts] (the module that owns the audio
    context, the sprite catalog and the table of sounding notes) together
    with the properties stated about it.

    Conventions of the embedding.
    - A JavaScript [number] that holds a MIDI pitch or an array index is an
      integer well inside the exactly representable range of a double, so it
      is a [Z]; [Math.floor (x / 2)] is [Z.div], [Math.abs] is [Z.abs].
    - A [number] that holds seconds or a gain is an IEEE binary64 value:
      Rocq's primitive [float], with its own addition and comparison.
    - [T | undefined] is [option T]; an optional field is an [option] field.
    - A JavaScript object used as a dictionary is a plain object: its own
      properties are the entries of a [gmap string _], and a read of a name
      it does not own goes on to [Object.prototype].
    - The module level [let]/[const] bindings are the fields of [player];
      functions that read or write them, log to the console or throw are
      computations in the monad [M].
    - The Web Audio engine itself is outside the module: a call made on a
      node is recorded, in order, in the [calls] of the audio context. *)

From Stdlib Require Import ZArith PrimFloat.
From stdpp Require Import gmap strings list.
From Equations Require Import Equations.

Set Warnings "-inexact-float".
Local Open Scope Z_scope.

(** ** Data model ([src/types/mod.d.ts]) *)

Record AudioSpriteNoteData := {
  midiNoteNumber : Z;
  midiNoteRangeStart : Z;
  midiNoteRangeEnd : Z;
  noteStart : float;
  noteDuration : float;
  loopStart : option float;
  loopEnd : option float
}.

(** [AudioSpriteInstrumentsData]: instrument name to its descriptor array. *)
Abbreviation AudioSpriteInstrumentsData := (gmap string (list AudioSpriteNoteData)).

(** The [detail] payload of a [web-note-player-on] event. *)
Record WebNoteOnEventDetail := {
  detail_instrumentAudio : string;
  detail_midiNoteNumber : Z;
  detail_uuid : option string;
  detail_noteDuration : option float;
  detail_noteVolume : option float;
  detail_noteDelay : option float
}.

(** ** The audio graph, as the module sees it *)

(** A decoded sprite; the module only passes it on. *)
Record AudioBuffer := { buffer_duration : float }.

(** Nodes are handed out by the context and told apart by a serial number. *)
Definition node := nat.

Inductive destination_or_node :=
| to_node (n : node)
| to_destination.

Inductive audio_call :=
| createBufferSource (n : node)
| createGain (g : node)
| set_buffer (n : node) (b : option AudioBuffer)
| set_loopStart (n : node) (t : float)
| set_loopEnd (n : node) (t : float)
| set_loop (n : node) (b : bool)
| connect (src : node) (dst : destination_or_node)
| set_detune (n : node) (cents : Z)
| set_gain (g : node) (v : float)
| setTargetAtTime (g : node) (target startTime timeConstant : float)
| cancelScheduledValues (g : node) (cancelTime : float)
| start (n : node) (when offset : float) (duration : option float)
| stop (n : node) (when : float).

Record AudioContext := {
  currentTime : float;
  allocated : nat;
  calls : list audio_call
}.

(** An entry of [webNoteAudioBuffers]. *)
Record voice := { buffer : node; gain : node }.

(** ** Exceptions and the console *)

Inductive message :=
| no_such_instrument (instrumentAudio : string)
| empty_instrument_data (instrumentAudio : string)
| undefined_has_no_properties
| context_not_initialized
| uuid_must_be_supplied.

Inductive exn :=
| TypeError (m : message)
| Error (m : message).

Inductive console_entry :=
| console_error (e : exn)
| console_error_text (m : message)
| console_warn_not_in_range (midiNoteNumber : Z)
| console_warn_nonexistent_note (uuid : string).

(** ** Module state *)

Record player := {
  webNoteAudioContext : option AudioContext;
  audioSpriteInstrumentsData : option AudioSpriteInstrumentsData;
  audioSpriteBuffer : option AudioBuffer;
  webNoteAudioBuffers : gmap string voice;
  console : list console_entry
}.

Definition GAIN_TIME_CONSTANT : float := 0.05%float.
Definition EXTRA_NOTE_DURATION : float := 0.3%float.

Definition with_context (c : option AudioContext) (st : player) : player :=
  {| webNoteAudioContext := c;
     audioSpriteInstrumentsData := audioSpriteInstrumentsData st;
     audioSpriteBuffer := audioSpriteBuffer st;
     webNoteAudioBuffers := webNoteAudioBuffers st;
     console := console st |}.

Definition with_voices (r : gmap string voice) (st : player) : player :=
  {| webNoteAudioContext := webNoteAudioContext st;
     audioSpriteInstrumentsData := audioSpriteInstrumentsData st;
     audioSpriteBuffer := audioSpriteBuffer st;
     webNoteAudioBuffers := r;
     console := console st |}.

Definition with_console (l : list console_entry) (st : player) : player :=
  {| webNoteAudioContext := webNoteAudioContext st;
     audioSpriteInstrumentsData := audioSpriteInstrumentsData st;
     audioSpriteBuffer := audioSpriteBuffer st;
     webNoteAudioBuffers := webNoteAudioBuffers st;
     console := l |}.

(** ** The monad of module functions: state plus exceptions *)

Inductive completion (A : Type) :=
| Normal (a : A)
| Throw (e : exn).
Arguments Normal {A} a.
Arguments Throw {A} e.

Definition M (A : Type) : Type := player -> completion A * player.

Definition ret {A} (a : A) : M A := fun st => (Normal a, st).

Definition throw {A} (e : exn) : M A := fun st => (Throw e, st).

Definition bind {A B} (m : M A) (k : A -> M B) : M B :=
  fun st =>
    match m st with
    | (Normal a, st') => k a st'
    | (Throw e, st') => (Throw e, st')
    end.

Notation "x <- m ;; k" := (bind m (fun x => k))
  (at level 100, m at next level, right associativity).
Notation "m ;;; k" := (bind m (fun _ => k))
  (at level 100, right associativity).

(** [try { m } catch (error) { h error }] *)
Definition try_catch (m : M unit) (h : exn -> M unit) : M unit :=
  fun st =>
    match m st with
    | (Normal a, st') => (Normal a, st')
    | (Throw e, st') => h e st'
    end.

Definition gets {A} (f : player -> A) : M A := fun st => (Normal (f st), st).

Definition log (c : console_entry) : M unit :=
  fun st => (Normal tt, with_console (console st ++ [c]) st).

Definition lift {A} (c : completion A) : M A := fun st => (c, st).

(** A call on a node of the context; the context records it. *)
Definition audio (c : audio_call) : M unit :=
  fun st =>
    match webNoteAudioContext st with
    | Some ctx =>
        (Normal tt,
         with_context (Some {| currentTime := currentTime ctx;
                               allocated := allocated ctx;
                               calls := calls ctx ++ [c] |}) st)
    | None => (Throw (TypeError undefined_has_no_properties), st)
    end.

(** [createBufferSource()] and [createGain()]: a fresh node each. *)
Definition create (mk : node -> audio_call) : M node :=
  fun st =>
    match webNoteAudioContext st with
    | Some ctx =>
        (Normal (allocated ctx),
         with_context (Some {| currentTime := currentTime ctx;
                               allocated := S (allocated ctx);
                               calls := calls ctx ++ [mk (allocated ctx)] |}) st)
    | None => (Throw (TypeError undefined_has_no_properties), st)
    end.

(** ** Plain objects *)

(** The properties every plain object inherits from [Object.prototype], as
    the language defines them, each with the [length] of the function it
    holds; [__proto__] yields the prototype object itself, which has no
    [length]. None of these values has an indexed element, a [gain] or a
    [buffer]. *)
Definition Object_prototype : gmap string (option Z) :=
  list_to_map
    [ ("constructor"%string, Some 1);
      ("hasOwnProperty"%string, Some 1);
      ("isPrototypeOf"%string, Some 1);
      ("propertyIsEnumerable"%string, Some 1);
      ("toLocaleString"%string, Some 0);
      ("toString"%string, Some 0);
      ("valueOf"%string, Some 0);
      ("__defineGetter__"%string, Some 2);
      ("__defineSetter__"%string, Some 2);
      ("__lookupGetter__"%string, Some 1);
      ("__lookupSetter__"%string, Some 1);
      ("__proto__"%string, None) ].
Arguments Object_prototype : simpl never.

(** What [obj[name]] is for a plain object [obj]. *)
Inductive property (A : Type) :=
| own (a : A)
| inherited (length : option Z)
| absent.
Arguments own {A} a.
Arguments inherited {A} length.
Arguments absent {A}.

Definition get {A} (obj : gmap string A) (name : string) : property A :=
  match obj !! name with
  | Some a => own a
  | None =>
      match Object_prototype !! name with
      | Some length => inherited length
      | None => absent
      end
  end.

(** ** getClosestSpriteNoteData *)

(** What the resolver reads of [instrumentData]: its [length] and its
    indexed elements. An array has both; a value inherited from
    [Object.prototype] has no element and the [length] stated there. *)
Record indexed := {
  length_of : option Z;
  elements : list AudioSpriteNoteData
}.

(** [x === 0] for a [length] that may be [undefined]. *)
Definition is_zero (x : option Z) : bool :=
  match x with
  | Some n => n =? 0
  | None => false
  end.

(** [obj?.[name]] on the catalog; [None] is [undefined]. *)
Definition instrument_data (obj : AudioSpriteInstrumentsData) (name : string)
  : option indexed :=
  match get obj name with
  | own l => Some {| length_of := Some (Z.of_nat (length l)); elements := l |}
  | inherited len => Some {| length_of := len; elements := [] |}
  | absent => None
  end.

(** [a[i]] for a JavaScript array: [undefined] outside [0 .. length - 1]. *)
Definition array_get {A} (a : list A) (i : Z) : option A :=
  if i <? 0 then None else a !! Z.to_nat i.

(** Reading a property of [a[i]] throws when [a[i]] is [undefined]. *)
Definition element {A} (a : list A) (i : Z) : completion A :=
  match array_get a i with
  | Some x => Normal x
  | None => Throw (TypeError undefined_has_no_properties)
  end.

(** The [while (low <= high)] loop; the value is the final [result]. *)
Equations? binarySearch (instrumentData : list AudioSpriteNoteData)
    (midi : Z) (low high : Z)
  : completion (option AudioSpriteNoteData)
  by wf (Z.to_nat (high - low + 1)) lt :=
  binarySearch instrumentData midi low high with decide (low <= high) => {
    | right _ => Normal None
    | left _ with element instrumentData ((low + high) `div` 2) => {
        | Throw e => Throw e
        | Normal currentNoteData =>
            if (midiNoteRangeStart currentNoteData <=? midi)
               && (midi <=? midiNoteRangeEnd currentNoteData)
            then Normal (Some currentNoteData)
            else if midi <? midiNoteRangeStart currentNoteData
            then binarySearch instrumentData midi low ((low + high) `div` 2 - 1)
            else binarySearch instrumentData midi ((low + high) `div` 2 + 1) high } }.
Proof.
  all: assert (low <= (low + high) `div` 2 <= high)
    by (split; [apply Z.div_le_lower_bound | apply Z.div_le_upper_bound]; lia);
    lia.
Qed.

(** The fallback [for] loop over [instrumentData[1 ..]], carrying
    [closest] and [minDiff]. *)
Fixpoint closestLoop (midi : Z) (rest : list AudioSpriteNoteData)
    (closest : AudioSpriteNoteData) (minDiff : Z) : AudioSpriteNoteData :=
  match rest with
  | [] => closest
  | current :: rest' =>
      let currentDiff := Z.abs (midi - midiNoteNumber current) in
      if currentDiff <? minDiff
      then closestLoop midi rest' current currentDiff
      else closestLoop midi rest' closest minDiff
  end.

(** [{...d, midiNoteRangeStart: 0, midiNoteRangeEnd: d.midiNoteRangeEnd}] *)
Definition extend_down (d : AudioSpriteNoteData) : AudioSpriteNoteData :=
  {| midiNoteNumber := midiNoteNumber d;
     midiNoteRangeStart := 0;
     midiNoteRangeEnd := midiNoteRangeEnd d;
     noteStart := noteStart d;
     noteDuration := noteDuration d;
     loopStart := loopStart d;
     loopEnd := loopEnd d |}.

(** [{...d, midiNoteRangeStart: d.midiNoteRangeStart, midiNoteRangeEnd: 127}] *)
Definition extend_up (d : AudioSpriteNoteData) : AudioSpriteNoteData :=
  {| midiNoteNumber := midiNoteNumber d;
     midiNoteRangeStart := midiNoteRangeStart d;
     midiNoteRangeEnd := 127;
     noteStart := noteStart d;
     noteDuration := noteDuration d;
     loopStart := loopStart d;
     loopEnd := loopEnd d |}.

Definition getClosestSpriteNoteData (instrumentAudio : string)
    (midi : Z) : M AudioSpriteNoteData :=
  data <- gets audioSpriteInstrumentsData ;;
  match data ≫= (fun obj => instrument_data obj instrumentAudio) with
  | None => throw (TypeError (no_such_instrument instrumentAudio))
  | Some instrumentData =>
      let len := length_of instrumentData in
      if is_zero len
      then throw (Error (empty_instrument_data instrumentAudio))
      else
        (* [high] is [length - 1]; with [length] undefined it is NaN, and
           [low <= high] is false from the start *)
        result <- lift (match len with
                        | Some len =>
                            binarySearch (elements instrumentData) midi
                              0 (len - 1)
                        | None => Normal None
                        end) ;;
        match result with
        | Some found => ret found
        | None =>
            first <- lift (element (elements instrumentData) 0) ;;
            if midi <? midiNoteRangeStart first
            then ret (extend_down first)
            else
              final <- lift (match len with
                             | Some len =>
                                 element (elements instrumentData) (len - 1)
                             | None =>
                                 Throw (TypeError undefined_has_no_properties)
                             end) ;;
              if midiNoteRangeEnd final <? midi
              then ret (extend_up final)
              else
                log (console_warn_not_in_range midi) ;;;
                closest <- lift (element (elements instrumentData) 0) ;;
                ret (closestLoop midi (drop 1 (elements instrumentData))
                       closest (Z.abs (midi - midiNoteNumber closest)))
        end
  end.

(** ** webNotePlayerOn *)

(** A parameter declared [x: T = dflt]: the default replaces an argument
    that is missing or [undefined]. *)
Definition default_parameter {A} (dflt : A) (argument : option A) : A :=
  match argument with
  | Some v => v
  | None => dflt
  end.

(** The same for a parameter declared [x: T | undefined = dflt]: the bound
    variable may still be tested against [undefined] in the body. *)
Definition default_parameter_or_undefined {A} (dflt : option A)
    (argument : option A) : option A :=
  match argument with
  | Some v => Some v
  | None => dflt
  end.

(** [noteDuration > x] for [noteDuration : number | undefined];
    [undefined > x] is [false]. *)
Definition greater_than (noteDuration : option float) (x : float) : bool :=
  match noteDuration with
  | Some d => PrimFloat.ltb x d
  | None => false
  end.

(** [x === undefined] *)
Definition is_undefined {A} (x : option A) : bool :=
  match x with
  | Some _ => false
  | None => true
  end.

(** [webNoteAudioContext.currentTime] *)
Definition get_currentTime : M float :=
  fun st =>
    match webNoteAudioContext st with
    | Some ctx => (Normal (currentTime ctx), st)
    | None => (Throw (TypeError undefined_has_no_properties), st)
    end.

(** [webNoteAudioBuffers[uuid] = v] and [delete webNoteAudioBuffers[uuid]],
    on the own properties of the table. (An assignment under the name
    [__proto__] would replace the prototype of the table instead of adding
    an entry; the function as declared never reaches the assignment.) *)
Definition set_voice (uuid : string) (v : voice) : M unit :=
  fun st =>
    (Normal tt, with_voices (<[uuid := v]> (webNoteAudioBuffers st)) st).

Definition delete_voice (uuid : string) : M unit :=
  fun st => (Normal tt, with_voices (delete uuid (webNoteAudioBuffers st)) st).

(** The function body, run once the parameters are bound. The variable
    [noteDuration] of the source is [duration] here, [noteDuration] being
    the field of the descriptor; [buffer] and [gain] are [source] and
    [gainNode]. *)
Definition webNotePlayerOn_body (instrumentAudio : string) (midi : Z)
    (uuid : option string) (duration : option float)
    (noteVolume noteDelay : float) : M unit :=
  try_catch
    (ctx <- gets webNoteAudioContext ;;
     (if is_undefined ctx
      then throw (Error context_not_initialized)
      else ret tt) ;;;
     source <- create createBufferSource ;;
     gainNode <- create createGain ;;
     closestSpriteNoteData <- getClosestSpriteNoteData instrumentAudio midi ;;
     sprite <- gets audioSpriteBuffer ;;
     audio (set_buffer source sprite) ;;;
     let isLongNote :=
       greater_than duration (noteDuration closestSpriteNoteData)
       || is_undefined duration in
     duration <-
       match isLongNote,
             loopStart closestSpriteNoteData,
             loopEnd closestSpriteNoteData with
       | true, Some ls, Some le =>
           audio (set_loopStart source ls) ;;;
           audio (set_loopEnd source le) ;;;
           audio (set_loop source true) ;;;
           ret duration
       | _, _, _ =>
           audio (set_loop source false) ;;;
           ret (if isLongNote
                then Some (noteDuration closestSpriteNoteData)
                else duration)
       end ;;
     audio (connect source (to_node gainNode)) ;;;
     audio (connect gainNode to_destination) ;;;
     audio (set_detune source
              ((midi - midiNoteNumber closestSpriteNoteData) * 100)) ;;;
     audio (set_gain gainNode noteVolume) ;;;
     now <- get_currentTime ;;
     let noteStartTime := (now + noteDelay)%float in
     match duration with
     | None =>
         match uuid with
         | Some id =>
             audio (start source noteStartTime
                      (noteStart closestSpriteNoteData) None) ;;;
             set_voice id {| buffer := source; gain := gainNode |}
         | None => throw (Error uuid_must_be_supplied)
         end
     | Some d =>
         let noteEndTime := (noteStartTime + d)%float in
         audio (setTargetAtTime gainNode 0%float noteEndTime
                  GAIN_TIME_CONSTANT) ;;;
         audio (start source noteStartTime
                  (noteStart closestSpriteNoteData)
                  (Some (d + EXTRA_NOTE_DURATION)%float))
     end)
    (fun error => log (console_error error)).

(** The function as it is declared:
    [uuid: string | undefined = undefined],
    [noteDuration: number | undefined = 1],
    [noteVolume: number = 0.6], [noteDelay: number = 0]. *)
Definition webNotePlayerOn (instrumentAudio : string) (midi : Z)
    (uuid : option string) (noteDuration_arg : option float)
    (noteVolume_arg noteDelay_arg : option float) : M unit :=
  webNotePlayerOn_body instrumentAudio midi
    (default_parameter_or_undefined None uuid)
    (default_parameter_or_undefined (Some 1%float) noteDuration_arg)
    (default_parameter 0.6%float noteVolume_arg)
    (default_parameter 0%float noteDelay_arg).

(** ** webNotePlayerOff *)

(** [entry.gain] and [entry.buffer] for the value read from the table: a
    voice has them, a value inherited from [Object.prototype] has not, and
    the next property read of the [undefined] it yields throws. *)
Definition gain_of (entry : property voice) : completion node :=
  match entry with
  | own v => Normal (gain v)
  | _ => Throw (TypeError undefined_has_no_properties)
  end.

Definition buffer_of (entry : property voice) : completion node :=
  match entry with
  | own v => Normal (buffer v)
  | _ => Throw (TypeError undefined_has_no_properties)
  end.

Definition webNotePlayerOff (uuid : string) : M unit :=
  ctx <- gets webNoteAudioContext ;;
  if is_undefined ctx
  then log (console_error_text context_not_initialized)
  else
    voices <- gets webNoteAudioBuffers ;;
    match get voices uuid with
    | absent => log (console_warn_nonexistent_note uuid)
    | entry =>
        now <- get_currentTime ;;
        g <- lift (gain_of entry) ;;
        audio (cancelScheduledValues g 0%float) ;;;
        g <- lift (gain_of entry) ;;
        audio (setTargetAtTime g 0%float now GAIN_TIME_CONSTANT) ;;;
        source <- lift (buffer_of entry) ;;
        audio (stop source (now + EXTRA_NOTE_DURATION)%float) ;;;
        delete_voice uuid
    end.

(** ** The listeners of addWebNotePlayerListeners, and the audio clock *)

Inductive event :=
| web_note_player_on (detail : WebNoteOnEventDetail)
| web_note_player_off (uuid : string)
| clock_advances (t : float).

Definition advance (t : float) (st : player) : player :=
  with_context
    ((fun ctx => {| currentTime := t;
                    allocated := allocated ctx;
                    calls := calls ctx |}) <$> webNoteAudioContext st) st.

Definition handle (ev : event) (st : player) : player :=
  match ev with
  | web_note_player_on d =>
      snd (webNotePlayerOn (detail_instrumentAudio d) (detail_midiNoteNumber d)
             (detail_uuid d) (detail_noteDuration d) (detail_noteVolume d)
             (detail_noteDelay d) st)
  | web_note_player_off uuid => snd (webNotePlayerOff uuid st)
  | clock_advances t => advance t st
  end.

Definition run (evs : list event) (st : player) : player :=
  foldl (fun s ev => handle ev s) st evs.

(** ** The catalog of [examples/nylon-guitar-audio-sprite-data.js] *)

Definition sprite (n s e : Z) (t d ls le : float) : AudioSpriteNoteData :=
  {| midiNoteNumber := n; midiNoteRangeStart := s; midiNoteRangeEnd := e;
     noteStart := t; noteDuration := d;
     loopStart := Some ls; loopEnd := Some le |}.

Definition guitar : list AudioSpriteNoteData :=
  [ sprite 40 0 43 0 4.387845804988662 4.372108843537415 4.384240362811791;
    sprite 45 44 48 5 3.213968253968254 8.204263038548753 8.213401360544218;
    sprite 50 49 53 9 4.537324263038549 13.508707482993199 13.535963718820861;
    sprite 55 54 58 14 2.0015419501133787 15.985873015873016 16.001292517006803;
    sprite 59 59 62 17 1.4187755102040815 18.410090702947844 18.418185941043085;
    sprite 64 63 67 19 0.9084807256235827 19.892108843537414 19.904285714285713;
    sprite 69 68 70 20 0.8397278911564626 20.827868480725623 20.83918367346939;
    sprite 71 71 75 21 0.6138321995464853 21.603650793650793 21.613718820861678;
    sprite 76 76 83 22 0.7136507936507936 22.702789115646258 22.713333333333335;
    sprite 84 84 127 23 0.4495691609977324 23.442721088435373 23.44936507936508
  ]%float.

Definition nylonGuitarAudioSpriteData : AudioSpriteInstrumentsData :=
  {[ "guitar"%string := guitar ]}.

(** A player after [initWebNotePlayer] and the sprite load, given the
    catalog, with no call made yet and the clock at [now]. *)
Definition ready (data : AudioSpriteInstrumentsData) (now : float) : player :=
  {| webNoteAudioContext :=
       Some {| currentTime := now; allocated := 0; calls := [] |};
     audioSpriteInstrumentsData := Some data;
     audioSpriteBuffer := Some {| buffer_duration := 24%float |};
     webNoteAudioBuffers := ∅;
     console := [] |}.

(** ** What the properties speak about *)

(** The pitch lies in the inclusive range of the descriptor. *)
Definition in_range (d : AudioSpriteNoteData) (p : Z) : Prop :=
  midiNoteRangeStart d <= p <= midiNoteRangeEnd d.

(** Sorted ascending by [midiNoteRangeStart]. *)
Fixpoint sorted_by_rangeStart (l : list AudioSpriteNoteData) : bool :=
  match l with
  | a :: t =>
      match t with
      | b :: _ => (midiNoteRangeStart a <=? midiNoteRangeStart b)
                  && sorted_by_rangeStart t
      | [] => true
      end
  | [] => true
  end.

(** Two inclusive ranges share a pitch. *)
Definition overlap (a b : AudioSpriteNoteData) : bool :=
  Z.max (midiNoteRangeStart a) (midiNoteRangeStart b)
  <=? Z.min (midiNoteRangeEnd a) (midiNoteRangeEnd b).

(** No two ranges of the array share a pitch. *)
Fixpoint non_overlapping (l : list AudioSpriteNoteData) : bool :=
  match l with
  | a :: t => forallb (fun b => negb (overlap a b)) t && non_overlapping t
  | [] => true
  end.

(** Each range begins right after the previous one ends. *)
Fixpoint contiguous (l : list AudioSpriteNoteData) : bool :=
  match l with
  | a :: t =>
      match t with
      | b :: _ => (midiNoteRangeStart b =? midiNoteRangeEnd a + 1)
                  && contiguous t
      | [] => true
      end
  | [] => true
  end.

(** The ranges run from 0 to 127 without a gap. *)
Definition covers_0_127 (l : list AudioSpriteNoteData) : bool :=
  match head l, last l with
  | Some a, Some z =>
      (midiNoteRangeStart a =? 0) && contiguous l && (midiNoteRangeEnd z =? 127)
  | _, _ => false
  end.

(** The descriptor is nearest to the pitch by sampled pitch, among [l]. *)
Definition nearest (l : list AudioSpriteNoteData) (p : Z)
    (d : AudioSpriteNoteData) : Prop :=
  d ∈ l /\
  forall d', d' ∈ l ->
    Z.abs (p - midiNoteNumber d) <= Z.abs (p - midiNoteNumber d').

(** The value of [n.detune] once the recorded calls are made: the last
    one assigned, [None] while no call has assigned it. *)
Definition detune_value (n : node) (cs : list audio_call) : option Z :=
  foldl (fun value c =>
           match c with
           | set_detune m cents => if Nat.eqb m n then Some cents else value
           | _ => value
           end) None cs.

(** Between two states: the table of sounding notes is the same, nothing
    logged in between is the missing-uuid error, and no source was started
    without a duration. *)
Definition nothing_sustained (st st' : player) : Prop :=
  webNoteAudioBuffers st' = webNoteAudioBuffers st
  /\ (exists logged,
        console st' = console st ++ logged
        /\ console_error (Error uuid_must_be_supplied) ∉ logged)
  /\ match webNoteAudioContext st, webNoteAudioContext st' with
     | Some ctx, Some ctx' =>
         exists issued,
           calls ctx' = calls ctx ++ issued
           /\ forall n when offset, start n when offset None ∉ issued
     | None, None => True
     | _, _ => False
     end.

(** ** Catalogs, players and requests to try the properties on *)

Definition st_guitar : player := ready nylonGuitarAudioSpriteData 2%float.

Definition st_empty_instrument : player :=
  ready {[ "guitar"%string := guitar; "flute"%string := [] ]} 2%float.

(** A catalog whose lowest range starts at 5 and whose highest ends at 120. *)
Definition short_of_the_ends : list AudioSpriteNoteData :=
  [ sprite 40 5 60 0 2 1.5 1.9; sprite 80 61 120 3 2 4.5 4.9 ]%float.

Definition st_short : player :=
  ready {[ "guitar"%string := short_of_the_ends ]} 0%float.

(** A catalog whose first range reaches over the second. *)
Definition reaching_over : list AudioSpriteNoteData :=
  [ sprite 40 0 127 0 2 1.5 1.9; sprite 55 50 60 3 2 4.5 4.9 ]%float.

(** A catalog whose only range ends before it starts. *)
Definition back_to_front : list AudioSpriteNoteData :=
  [ sprite 40 50 10 0 2 1.5 1.9 ]%float.

(** A catalog with a hole between 10 and 20. *)
Definition with_a_gap : list AudioSpriteNoteData :=
  [ sprite 5 0 10 0 2 1.5 1.9; sprite 24 20 127 3 2 4.5 4.9 ]%float.

Definition st_gap : player := ready {[ "guitar"%string := with_a_gap ]} 0%float.

(** A segment of two seconds without loop points. *)
Definition plucked : list AudioSpriteNoteData :=
  [ {| midiNoteNumber := 60; midiNoteRangeStart := 0; midiNoteRangeEnd := 127;
       noteStart := 4; noteDuration := 2;
       loopStart := None; loopEnd := None |} ]%float.

Definition st_two_instruments : player :=
  ready {[ "plucked"%string := plucked; "guitar"%string := guitar ]} 5%float.

(** A player on which the note [a] sounds without an end: the state the
    body reaches when it runs with an undefined duration. *)
Definition st_sounding : player :=
  with_voices {[ "a"%string := {| buffer := 0%nat; gain := 1%nat |} ]}
    (with_context
       (Some {| currentTime := 2; allocated := 2;
                calls := [createBufferSource 0%nat; createGain 1%nat;
                          set_buffer 0%nat (Some {| buffer_duration := 24 |});
                          set_loopStart 0%nat 18.410090702947844;
                          set_loopEnd 0%nat 18.418185941043085;
                          set_loop 0%nat true;
                          connect 0%nat (to_node 1%nat);
                          connect 1%nat to_destination;
                          set_detune 0%nat 100;
                          set_gain 1%nat 0.6;
                          start 0%nat 2 17 None] |}%float)
       st_guitar).

(** A sustain request with an identifier, the stop of that identifier, and
    a sustain request without one. *)
Definition sustain_then_stop : list event :=
  [ web_note_player_on
      {| detail_instrumentAudio := "guitar"; detail_midiNoteNumber := 60;
         detail_uuid := Some "a"%string; detail_noteDuration := None;
         detail_noteVolume := None; detail_noteDelay := None |};
    clock_advances 2.5%float;
    web_note_player_off "a";
    web_note_player_on
      {| detail_instrumentAudio := "guitar"; detail_midiNoteNumber := 64;
         detail_uuid := None; detail_noteDuration := None;
         detail_noteVolume := None; detail_noteDelay := None |} ].

(** ** Further notions for the resolver *)

(** Every range starts no later than it ends. *)
Definition proper_ranges (l : list AudioSpriteNoteData) : bool :=
  forallb (fun d => midiNoteRangeStart d <=? midiNoteRangeEnd d) l.

(** Two descriptors locate the same recording: they agree on everything
    but the bounds of the range. *)
Definition same_segment (d d0 : AudioSpriteNoteData) : Prop :=
  midiNoteNumber d = midiNoteNumber d0
  /\ noteStart d = noteStart d0
  /\ noteDuration d = noteDuration d0
  /\ loopStart d = loopStart d0
  /\ loopEnd d = loopEnd d0.

(** A catalog with a hole between 10 and 20 whose two sampled pitches are
    equally far from 15. *)
Definition equally_near : list AudioSpriteNoteData :=
  [ sprite 5 0 10 0 2 1.5 1.9; sprite 25 20 127 3 2 4.5 4.9 ]%float.

Definition st_equally_near : player :=
  ready {[ "guitar"%string := equally_near ]} 0%float.

(** ** Further notions for the scheduler *)

(** The call starts the source node [n]. *)
Definition starts (n : node) (c : audio_call) : bool :=
  match c with
  | start m _ _ _ => Nat.eqb m n
  | _ => false
  end.

(** How often [n.start()] occurs among the recorded calls. *)
Definition times_started (n : node) (cs : list audio_call) : nat :=
  length (List.filter (starts n) cs).

(** Only nodes the context has handed out have been started, and none of
    them more than once. *)
Definition started_once (ctx : AudioContext) : Prop :=
  (forall n, (allocated ctx <= n)%nat -> times_started n (calls ctx) = 0%nat)
  /\ (forall n, (times_started n (calls ctx) <= 1)%nat).

(** ** initWebNotePlayer, loadAudioSpriteFromUrl, addWebNotePlayerListeners *)

(** An [EventTarget] the listeners can be attached to, known by a number;
    [document.body] is one of them. *)
Definition EventTarget := nat.

Definition document_body : EventTarget := 0%nat.

(** [new AudioContext()]: the clock at zero, no node made, no call yet. *)
Definition new_AudioContext : AudioContext :=
  {| currentTime := 0%float; allocated := 0%nat; calls := [] |}.

(** What initWebNotePlayer reports with [console.error]. *)
Inductive init_error :=
| audioSpriteUrl_is_not_defined
| audioSpriteData_is_not_defined.

(** A call of loadAudioSpriteFromUrl whose promise has not run its
    [then] callback yet: the callback's captured variables, and whether the
    promise is fulfilled (the sprite decoded and stored). *)
Record load := {
  then_audioSpriteData : AudioSpriteInstrumentsData;
  then_listenerElement : EventTarget;
  fulfilled : bool
}.

(** The module inside a page: its bindings, what initWebNotePlayer has
    logged, the loads in flight, one entry per pair of listeners attached by
    addWebNotePlayerListeners, and the targets on which
    [web-note-player-ready] has been dispatched. *)
Record page := {
  bindings : player;
  init_console : list init_error;
  loads : list load;
  listeners : list EventTarget;
  ready_dispatched : list EventTarget
}.

(** The page once the module is evaluated: every [let] is [null], the
    table of sounding notes is [{}]. *)
Definition module_loaded : page :=
  {| bindings := {| webNoteAudioContext := None;
                    audioSpriteInstrumentsData := None;
                    audioSpriteBuffer := None;
                    webNoteAudioBuffers := ∅;
                    console := [] |};
     init_console := [];
     loads := [];
     listeners := [];
     ready_dispatched := [] |}.

Definition with_data (d : option AudioSpriteInstrumentsData) (st : player)
  : player :=
  {| webNoteAudioContext := webNoteAudioContext st;
     audioSpriteInstrumentsData := d;
     audioSpriteBuffer := audioSpriteBuffer st;
     webNoteAudioBuffers := webNoteAudioBuffers st;
     console := console st |}.

Definition with_sprite (b : option AudioBuffer) (st : player) : player :=
  {| webNoteAudioContext := webNoteAudioContext st;
     audioSpriteInstrumentsData := audioSpriteInstrumentsData st;
     audioSpriteBuffer := b;
     webNoteAudioBuffers := webNoteAudioBuffers st;
     console := console st |}.

(** loadAudioSpriteFromUrl up to its first [await]: without a context the
    promise is rejected at once and its [then] callback is dropped;
    otherwise the fetch is under way. *)
Definition loadAudioSpriteFromUrl_begins (audioSpriteData :
    AudioSpriteInstrumentsData) (listenerElement : EventTarget) (pg : page)
  : page :=
  if is_undefined (webNoteAudioContext (bindings pg))
  then pg
  else
    {| bindings := bindings pg;
       init_console := init_console pg;
       loads := loads pg ++ [{| then_audioSpriteData := audioSpriteData;
                                then_listenerElement := listenerElement;
                                fulfilled := false |}];
       listeners := listeners pg;
       ready_dispatched := ready_dispatched pg |}.

(** initWebNotePlayer, up to the return of the call. An argument left out
    is [None]: the target defaults to [document.body], the context to a new
    one. *)
Definition initWebNotePlayer (audioSpriteUrl : string)
    (audioSpriteData : option AudioSpriteInstrumentsData)
    (listenerElement : option EventTarget)
    (audioContext : option AudioContext) (pg : page) : page :=
  let listenerElement := default_parameter document_body listenerElement in
  let audioContext := default_parameter new_AudioContext audioContext in
  let caught (e : init_error) :=
    {| bindings := bindings pg;
       init_console := init_console pg ++ [e];
       loads := loads pg;
       listeners := listeners pg;
       ready_dispatched := ready_dispatched pg |} in
  if String.eqb audioSpriteUrl EmptyString
  then caught audioSpriteUrl_is_not_defined
  else
    match audioSpriteData with
    | None => caught audioSpriteData_is_not_defined
    | Some data =>
        loadAudioSpriteFromUrl_begins data listenerElement
          {| bindings := with_context (Some audioContext) (bindings pg);
             init_console := init_console pg;
             loads := loads pg;
             listeners := listeners pg;
             ready_dispatched := ready_dispatched pg |}
    end.

(** The rest of loadAudioSpriteFromUrl for the load at position [i]: with
    [Some b] the fetch, the body and the decoding succeeded and [b] is
    stored; with [None] one of them failed (or the response was not ok), the
    error is rethrown and the promise rejected, which nothing handles. *)
Definition loadAudioSpriteFromUrl_settles (i : nat)
    (result : option AudioBuffer) (pg : page) : page :=
  match loads pg !! i with
  | Some ld =>
      if fulfilled ld then pg
      else
        match result with
        | Some b =>
            {| bindings := with_sprite (Some b) (bindings pg);
               init_console := init_console pg;
               loads := <[i := {| then_audioSpriteData :=
                                    then_audioSpriteData ld;
                                  then_listenerElement :=
                                    then_listenerElement ld;
                                  fulfilled := true |}]> (loads pg);
               listeners := listeners pg;
               ready_dispatched := ready_dispatched pg |}
        | None =>
            {| bindings := bindings pg;
               init_console := init_console pg;
               loads := delete i (loads pg);
               listeners := listeners pg;
               ready_dispatched := ready_dispatched pg |}
        end
  | None => pg
  end.

(** The [then] callback of a fulfilled load: install the catalog, attach
    the two listeners, dispatch [web-note-player-ready]. *)
Definition then_callback (i : nat) (pg : page) : page :=
  match loads pg !! i with
  | Some ld =>
      if fulfilled ld
      then
        {| bindings := with_data (Some (then_audioSpriteData ld)) (bindings pg);
           init_console := init_console pg;
           loads := delete i (loads pg);
           listeners := listeners pg ++ [then_listenerElement ld];
           ready_dispatched := ready_dispatched pg ++ [then_listenerElement ld] |}
      else pg
  | None => pg
  end.

(** An event passing a target runs the handler of every pair of listeners
    attached to that target. *)
Definition dispatch (target : EventTarget) (ev : event) (pg : page) : page :=
  {| bindings :=
       Nat.iter (length (List.filter (Nat.eqb target) (listeners pg)))
         (handle ev) (bindings pg);
     init_console := init_console pg;
     loads := loads pg;
     listeners := listeners pg;
     ready_dispatched := ready_dispatched pg |}.

(** What can happen to the page, one thing at a time. *)
Inductive occurrence :=
| calls_initWebNotePlayer (audioSpriteUrl : string)
    (audioSpriteData : option AudioSpriteInstrumentsData)
    (listenerElement : option EventTarget)
    (audioContext : option AudioContext)
| load_settles (i : nat) (result : option AudioBuffer)
| then_runs (i : nat)
| note_on_at (target : EventTarget) (detail : WebNoteOnEventDetail)
| note_off_at (target : EventTarget) (uuid : string)
| time_passes (t : float).

Definition occur (o : occurrence) (pg : page) : page :=
  match o with
  | calls_initWebNotePlayer url data target ctx =>
      initWebNotePlayer url data target ctx pg
  | load_settles i result => loadAudioSpriteFromUrl_settles i result pg
  | then_runs i => then_callback i pg
  | note_on_at target detail => dispatch target (web_note_player_on detail) pg
  | note_off_at target uuid => dispatch target (web_note_player_off uuid) pg
  | time_passes t =>
      {| bindings := advance t (bindings pg);
         init_console := init_console pg;
         loads := loads pg;
         listeners := listeners pg;
         ready_dispatched := ready_dispatched pg |}
  end.

Definition history (os : list occurrence) (pg : page) : page :=
  foldl (fun s o => occur o s) pg os.

(** Neither guard on the context has logged its message. *)
Definition guard_free (logs : list console_entry) : Prop :=
  (console_error (Error context_not_initialized) ∉ logs)
  /\ (console_error_text context_not_initialized ∉ logs).

(** What holds of every page the module can be in. *)
Definition page_invariant (pg : page) : Prop :=
  listeners pg = ready_dispatched pg
  /\ (loads pg <> [] -> is_Some (webNoteAudioContext (bindings pg)))
  /\ (forall ld, ld ∈ loads pg -> fulfilled ld = true ->
        is_Some (audioSpriteBuffer (bindings pg)))
  /\ (listeners pg <> [] ->
        is_Some (webNoteAudioContext (bindings pg))
        /\ is_Some (audioSpriteInstrumentsData (bindings pg))
        /\ is_Some (audioSpriteBuffer (bindings pg)))
  /\ guard_free (console (bindings pg)).

(** A page history: the player is initialised on [document.body] with the
    guitar catalog, a note is played before the sprite has arrived, the
    sprite arrives, a note is played and stopped. *)
Definition a_session : list occurrence :=
  [ calls_initWebNotePlayer "sprite.ogg" (Some nylonGuitarAudioSpriteData)
      None None;
    note_on_at document_body
      {| detail_instrumentAudio := "guitar"; detail_midiNoteNumber := 52;
         detail_uuid := None; detail_noteDuration := None;
         detail_noteVolume := None; detail_noteDelay := None |};
    load_settles 0 (Some {| buffer_duration := 24%float |});
    then_runs 0;
    time_passes 1%float;
    note_on_at document_body
      {| detail_instrumentAudio := "guitar"; detail_midiNoteNumber := 64;
         detail_uuid := Some "e4"%string; detail_noteDuration := None;
         detail_noteVolume := None; detail_noteDelay := None |};
    note_off_at document_body "e4" ].

(** A page history: the player is initialised twice on [document.body],
    and both sprites arrive. *)
Definition initialised_twice : list occurrence :=
  [ calls_initWebNotePlayer "sprite.ogg" (Some nylonGuitarAudioSpriteData)
      None None;
    calls_initWebNotePlayer "sprite.ogg" (Some nylonGuitarAudioSpriteData)
      None None;
    load_settles 0 (Some {| buffer_duration := 24%float |});
    then_runs 0;
    load_settles 0 (Some {| buffer_duration := 24%float |});
    then_runs 0 ].

(** ** The binary search *)

Lemma binarySearch_step l p low high :
  binarySearch l p low high =
  if decide (low <= high) then
    match element l ((low + high) `div` 2) with
    | Throw e => Throw e
    | Normal c =>
        if (midiNoteRangeStart c <=? p) && (p <=? midiNoteRangeEnd c)
        then Normal (Some c)
        else if p <? midiNoteRangeStart c
        then binarySearch l p low ((low + high) `div` 2 - 1)
        else binarySearch l p ((low + high) `div` 2 + 1) high
    end
  else Normal None.
Proof.
  rewrite (binarySearch_equation_1 l p low high).
  destruct (decide (low <= high)).
  - rewrite binarySearch_clause_1_equation_1.
    destruct (element l ((low + high) `div` 2)).
    + apply binarySearch_clause_1_clause_2_equation_1.
    + apply binarySearch_clause_1_clause_2_equation_2.
  - apply binarySearch_clause_1_equation_2.
Qed.

Lemma mid_between low high :
  low <= high -> low <= (low + high) `div` 2 <= high.
Proof.
  intros. split; [apply Z.div_le_lower_bound | apply Z.div_le_upper_bound]; lia.
Qed.

Lemma element_Normal {A} (l : list A) i x :
  element l i = Normal x <-> 0 <= i /\ l !! Z.to_nat i = Some x.
Proof.
  unfold element, array_get.
  destruct (Z.ltb_spec i 0).
  - split; [discriminate | lia].
  - destruct (l !! Z.to_nat i) eqn:E; split.
    + intros [= ->]. auto.
    + intros [_ [= ->]]. reflexivity.
    + discriminate.
    + intros [_ [=]].
  Qed.

Lemma element_in_bounds {A} (l : list A) i :
  0 <= i < Z.of_nat (length l) -> exists x, element l i = Normal x.
Proof.
  intros Hi.
  destruct (lookup_lt_is_Some_2 l (Z.to_nat i)) as [x Hx]; [lia|].
  exists x. apply element_Normal. split; [lia | exact Hx].
Qed.

(** Whatever the search returns contains the pitch. *)
Lemma binarySearch_sound l p low high r :
  binarySearch l p low high = Normal (Some r) -> r ∈ l /\ in_range r p.
Proof.
  remember (Z.to_nat (high - low + 1)) as n eqn:Hn.
  revert low high Hn.
  induction n as [n IH] using lt_wf_ind. intros low high Hn.
  rewrite binarySearch_step.
  destruct (decide (low <= high)) as [Hle|]; [|discriminate].
  pose proof (mid_between low high Hle) as Hmid.
  destruct (element l ((low + high) `div` 2)) as [c|] eqn:Hc; [|discriminate].
  apply element_Normal in Hc as [_ Hc].
  destruct (andb _ _) eqn:Hin.
  - intros [= <-]. split.
    + apply list_elem_of_lookup. eauto.
    + unfold in_range. apply andb_true_iff in Hin. lia.
  - destruct (p <? midiNoteRangeStart c).
    + apply (IH (Z.to_nat ((low + high) `div` 2 - 1 - low + 1))); lia.
    + apply (IH (Z.to_nat (high - ((low + high) `div` 2 + 1) + 1))); lia.
Qed.

(** Within the bounds of the array the search never throws, and it answers
    [undefined] when no descriptor contains the pitch. *)
Lemma binarySearch_miss l p low high :
  0 <= low -> high < Z.of_nat (length l) ->
  (forall d, d ∈ l -> ~ in_range d p) ->
  binarySearch l p low high = Normal None.
Proof.
  intros Hlow Hhigh Hnone.
  remember (Z.to_nat (high - low + 1)) as n eqn:Hn.
  revert low high Hn Hlow Hhigh.
  induction n as [n IH] using lt_wf_ind. intros low high Hn Hlow Hhigh.
  rewrite binarySearch_step.
  destruct (decide (low <= high)) as [Hle|]; [|reflexivity].
  pose proof (mid_between low high Hle) as Hmid.
  destruct (element_in_bounds l ((low + high) `div` 2)) as [c Hc]; [lia|].
  rewrite Hc. apply element_Normal in Hc as [_ Hc].
  destruct (andb _ _) eqn:Hin.
  - exfalso. apply (Hnone c).
    + apply list_elem_of_lookup. eauto.
    + unfold in_range. apply andb_true_iff in Hin. lia.
  - destruct (p <? midiNoteRangeStart c).
    + apply (IH (Z.to_nat ((low + high) `div` 2 - 1 - low + 1))); lia.
    + apply (IH (Z.to_nat (high - ((low + high) `div` 2 + 1) + 1))); lia.
Qed.

(** ** Sorted and contiguous descriptor arrays *)

Lemma sorted_tail a t :
  sorted_by_rangeStart (a :: t) = true -> sorted_by_rangeStart t = true.
Proof.
  destruct t as [|b t]; [reflexivity|].
  cbn [sorted_by_rangeStart]. intros H. apply andb_true_iff in H. tauto.
Qed.

Lemma sorted_head_least t : forall a d,
  sorted_by_rangeStart (a :: t) = true -> d ∈ t ->
  midiNoteRangeStart a <= midiNoteRangeStart d.
Proof.
  induction t as [|b t IH]; intros a d Hs Hd.
  - inversion Hd.
  - pose proof (sorted_tail _ _ Hs) as Ht.
    cbn [sorted_by_rangeStart] in Hs. apply andb_true_iff in Hs as [Hab _].
    apply Z.leb_le in Hab.
    apply elem_of_cons in Hd as [->|Hd]; [exact Hab|].
    specialize (IH b d Ht Hd). lia.
Qed.

Lemma sorted_ascending l :
  sorted_by_rangeStart l = true ->
  forall i j di dj, (i < j)%nat -> l !! i = Some di -> l !! j = Some dj ->
    midiNoteRangeStart di <= midiNoteRangeStart dj.
Proof.
  induction l as [|a t IH]; intros Hs i j di dj Hij Hi Hj.
  - discriminate.
  - destruct j as [|j]; [lia|]. cbn in Hj.
    destruct i as [|i].
    + injection Hi as <-. apply (sorted_head_least t); [exact Hs|].
      apply list_elem_of_lookup. eauto.
    + cbn in Hi. apply (IH (sorted_tail _ _ Hs) i j); [lia | assumption..].
Qed.

Lemma contiguous_tail a t : contiguous (a :: t) = true -> contiguous t = true.
Proof.
  destruct t as [|b t]; [reflexivity|].
  cbn [contiguous]. intros H. apply andb_true_iff in H. tauto.
Qed.

Lemma contiguous_ends_before l :
  sorted_by_rangeStart l = true -> contiguous l = true ->
  forall i j di dj, (i < j)%nat -> l !! i = Some di -> l !! j = Some dj ->
    midiNoteRangeEnd di < midiNoteRangeStart dj.
Proof.
  induction l as [|a t IH]; intros Hs Hc i j di dj Hij Hi Hj.
  - discriminate.
  - destruct j as [|j]; [lia|]. cbn in Hj.
    destruct i as [|i].
    + injection Hi as <-.
      destruct t as [|b t]; [discriminate|].
      pose proof (sorted_tail _ _ Hs) as Ht.
      cbn [contiguous] in Hc. apply andb_true_iff in Hc as [Hab _].
      apply Z.eqb_eq in Hab.
      destruct j as [|j].
      * injection Hj as <-. lia.
      * cbn in Hj.
        assert (midiNoteRangeStart b <= midiNoteRangeStart dj).
        { apply (sorted_head_least t); [exact Ht|].
          apply list_elem_of_lookup. eauto. }
        lia.
    + cbn in Hi.
      apply (IH (sorted_tail _ _ Hs) (contiguous_tail _ _ Hc) i j);
        [lia | assumption..].
Qed.

Lemma contiguous_reaches t : forall a z p,
  contiguous (a :: t) = true -> last (a :: t) = Some z ->
  midiNoteRangeStart a <= p <= midiNoteRangeEnd z ->
  exists d, d ∈ a :: t /\ in_range d p.
Proof.
  induction t as [|b t IH]; intros a z p Hc Hz Hp.
  - injection Hz as <-. exists a. split; [left | exact Hp].
  - destruct (Z.le_gt_cases p (midiNoteRangeEnd a)) as [Hle|Hgt].
    + exists a. split; [left | unfold in_range; lia].
    + pose proof (contiguous_tail _ _ Hc) as Ht.
      cbn [contiguous] in Hc. apply andb_true_iff in Hc as [Hab _].
      apply Z.eqb_eq in Hab.
      destruct (IH b z p Ht) as (d & Hd & Hin).
      * rewrite last_cons_cons in Hz. exact Hz.
      * lia.
      * exists d. split; [right; exact Hd | exact Hin].
Qed.

Lemma covers_0_127_spec l p :
  covers_0_127 l = true -> 0 <= p <= 127 ->
  exists d, d ∈ l /\ in_range d p.
Proof.
  unfold covers_0_127. intros Hc Hp.
  destruct l as [|a t]; [discriminate|]. cbn [head] in Hc.
  destruct (last (a :: t)) as [z|] eqn:Hz; [|discriminate].
  apply andb_true_iff in Hc as [Hc Hend].
  apply andb_true_iff in Hc as [Hstart Hc].
  apply Z.eqb_eq in Hstart, Hend.
  apply (contiguous_reaches t a z p Hc Hz). lia.
Qed.

(** On an array whose starts ascend and whose ranges end before the later
    ones begin, the search finds whatever descriptor contains the pitch. *)
Lemma binarySearch_complete l p :
  (forall i j di dj, (i < j)%nat -> l !! i = Some di -> l !! j = Some dj ->
     midiNoteRangeStart di <= midiNoteRangeStart dj) ->
  (forall i j di dj, (i < j)%nat -> l !! i = Some di -> l !! j = Some dj ->
     midiNoteRangeEnd di < midiNoteRangeStart dj) ->
  forall low high (k : nat) d,
    0 <= low -> high < Z.of_nat (length l) ->
    l !! k = Some d -> in_range d p -> low <= Z.of_nat k <= high ->
    exists r, binarySearch l p low high = Normal (Some r).
Proof.
  intros Hasc Hend low high k d Hlow Hhigh Hk Hd.
  remember (Z.to_nat (high - low + 1)) as n eqn:Hn.
  revert low high Hn Hlow Hhigh.
  induction n as [n IH] using lt_wf_ind. intros low high Hn Hlow Hhigh Hbetween.
  rewrite binarySearch_step.
  destruct (decide (low <= high)) as [Hle|]; [|lia].
  pose proof (mid_between low high Hle) as Hmid.
  destruct (element_in_bounds l ((low + high) `div` 2)) as [c Hc]; [lia|].
  rewrite Hc. apply element_Normal in Hc as [_ Hc].
  destruct (andb _ _) eqn:Hin; [eauto|].
  apply andb_false_iff in Hin. unfold in_range in Hd.
  assert (Hne : k <> Z.to_nat ((low + high) `div` 2)).
  { intros ->. rewrite Hc in Hk. injection Hk as <-.
    destruct Hin as [Hin|Hin]; [apply Z.leb_gt in Hin | apply Z.leb_gt in Hin];
      lia. }
  destruct (Z.ltb_spec p (midiNoteRangeStart c)) as [Hlt|Hge].
  - apply (IH (Z.to_nat ((low + high) `div` 2 - 1 - low + 1))); try lia.
    destruct (decide (k < Z.to_nat ((low + high) `div` 2))%nat); [lia|].
    pose proof (Hasc (Z.to_nat ((low + high) `div` 2)) k c d ltac:(lia) Hc Hk).
    lia.
  - apply (IH (Z.to_nat (high - ((low + high) `div` 2 + 1) + 1))); try lia.
    destruct (decide (Z.to_nat ((low + high) `div` 2) < k)%nat); [lia|].
    pose proof (Hend k (Z.to_nat ((low + high) `div` 2)) d c ltac:(lia) Hk Hc).
    destruct Hin as [Hin|Hin]; [apply Z.leb_gt in Hin | apply Z.leb_gt in Hin];
      lia.
Qed.

(** The fallback scan returns a descriptor nearest to the pitch among the
    current candidate and the rest of the array. *)
Lemma closestLoop_nearest p rest : forall closest,
  let r := closestLoop p rest closest (Z.abs (p - midiNoteNumber closest)) in
  r ∈ closest :: rest /\
  forall d', d' ∈ closest :: rest ->
    Z.abs (p - midiNoteNumber r) <= Z.abs (p - midiNoteNumber d').
Proof.
  induction rest as [|c rest IH]; intros closest; cbn zeta.
  - cbn. split; [left|]. intros d' Hd'.
    apply list_elem_of_singleton in Hd' as ->. lia.
  - cbn [closestLoop].
    destruct (Z.ltb_spec (Z.abs (p - midiNoteNumber c))
                (Z.abs (p - midiNoteNumber closest))) as [Hlt|Hge].
    + destruct (IH c) as [Hin Hmin]. split.
      * apply elem_of_cons in Hin as [->|Hin];
          [right; left | right; right; exact Hin].
      * intros d' Hd'. apply elem_of_cons in Hd' as [->|Hd'].
        -- specialize (Hmin c ltac:(left)). lia.
        -- apply Hmin. exact Hd'.
    + destruct (IH closest) as [Hin Hmin]. split.
      * apply elem_of_cons in Hin as [->|Hin];
          [left | right; right; exact Hin].
      * intros d' Hd'. apply elem_of_cons in Hd' as [->|Hd'].
        -- apply Hmin. left.
        -- apply elem_of_cons in Hd' as [->|Hd'].
           ++ specialize (Hmin closest ltac:(left)). lia.
           ++ apply Hmin. right. exact Hd'.
Qed.

(** ** The range resolver *)

Lemma length_zero_iff {A} (l : list A) :
  (Z.of_nat (length l) =? 0) = true <-> l = [].
Proof.
  destruct l; cbn; split; try reflexivity; discriminate.
Qed.

Lemma element_first {A} (a : A) t : element (a :: t) 0 = Normal a.
Proof. reflexivity. Qed.

Lemma element_last {A} (l : list A) z :
  last l = Some z -> element l (Z.of_nat (length l) - 1) = Normal z.
Proof.
  intros Hz. apply element_Normal.
  assert (l <> []) by (intros ->; discriminate).
  assert (0 < length l)%nat by (destruct l; [congruence | cbn; lia]).
  split; [lia|].
  rewrite last_lookup in Hz.
  replace (Z.to_nat (Z.of_nat (length l) - 1)) with (Nat.pred (length l)) by lia.
  exact Hz.
Qed.

(** The resolver on a known, non-empty instrument: what is left is the
    search and the three cases after it. *)
Lemma getClosestSpriteNoteData_known st data instr l p :
  audioSpriteInstrumentsData st = Some data ->
  data !! instr = Some l ->
  l <> [] ->
  getClosestSpriteNoteData instr p st =
  (result <- lift (binarySearch l p 0 (Z.of_nat (length l) - 1)) ;;
   match result with
   | Some found => ret found
   | None =>
       first <- lift (element l 0) ;;
       if p <? midiNoteRangeStart first
       then ret (extend_down first)
       else
         final <- lift (element l (Z.of_nat (length l) - 1)) ;;
         if midiNoteRangeEnd final <? p
         then ret (extend_up final)
         else
           log (console_warn_not_in_range p) ;;;
           closest <- lift (element l 0) ;;
           ret (closestLoop p (drop 1 l) closest
                  (Z.abs (p - midiNoteNumber closest)))
   end) st.
Proof.
  intros Hdata Hl Hne.
  unfold getClosestSpriteNoteData at 1, bind at 1, gets at 1.
  rewrite Hdata. cbn [mbind option_bind]. unfold instrument_data, get.
  rewrite Hl. cbn [length_of elements is_zero].
  destruct (Z.of_nat (length l) =? 0) eqn:E; [|reflexivity].
  apply length_zero_iff in E. contradiction.
Qed.

(** C1. On a descriptor array that is sorted ascending by rangeStart, has
    pairwise non-overlapping ranges and covers 0..127 contiguously, the
    resolver returns, for every pitch from 0 to 127, a descriptor of the
    array whose inclusive range contains the pitch; nothing is logged and
    the module state is left as it was. *)
Theorem resolve_covering_catalog st data instr l p :
  audioSpriteInstrumentsData st = Some data ->
  data !! instr = Some l ->
  sorted_by_rangeStart l = true ->
  non_overlapping l = true ->
  covers_0_127 l = true ->
  0 <= p <= 127 ->
  exists d,
    getClosestSpriteNoteData instr p st = (Normal d, st)
    /\ d ∈ l /\ in_range d p.
Proof.
  intros Hdata Hl Hsorted _ Hcovers Hp.
  assert (Hne : l <> []) by (intros ->; discriminate).
  destruct (covers_0_127_spec l p Hcovers Hp) as (d & Hd & Hin).
  apply list_elem_of_lookup in Hd as [k Hk].
  assert (Hcontig : contiguous l = true).
  { unfold covers_0_127 in Hcovers.
    destruct (head l), (last l); try discriminate.
    apply andb_true_iff in Hcovers as [Hc _].
    apply andb_true_iff in Hc. tauto. }
  pose proof (lookup_lt_Some _ _ _ Hk) as Hlt.
  destruct (binarySearch_complete l p
              (sorted_ascending l Hsorted)
              (contiguous_ends_before l Hsorted Hcontig)
              0 (Z.of_nat (length l) - 1) k d) as [r Hr];
    [lia | lia | exact Hk | exact Hin | lia |].
  exists r.
  rewrite (getClosestSpriteNoteData_known st data instr l p Hdata Hl Hne).
  unfold bind, lift. rewrite Hr. cbn.
  split; [reflexivity|]. apply (binarySearch_sound _ _ _ _ _ Hr).
Qed.

Lemma resolve_covering_catalog_witness :
  exists d,
    getClosestSpriteNoteData "guitar" 60 st_guitar = (Normal d, st_guitar)
    /\ d ∈ guitar /\ in_range d 60.
Proof.
  apply (resolve_covering_catalog st_guitar nylonGuitarAudioSpriteData
           "guitar" guitar 60);
    [reflexivity | reflexivity | reflexivity | reflexivity | reflexivity | lia].
Defined.

Lemma element_nil {A} i :
  element (@nil A) i = Throw (TypeError undefined_has_no_properties).
Proof. unfold element, array_get. destruct (i <? 0); reflexivity. Qed.

(** On a value without indexed elements the resolver throws at the first
    element it reads, in the loop or after it. *)
Lemma binarySearch_nil p low high :
  binarySearch [] p low high
  = if decide (low <= high)
    then Throw (TypeError undefined_has_no_properties)
    else Normal None.
Proof.
  rewrite binarySearch_step.
  destruct (decide (low <= high)); [|reflexivity].
  rewrite element_nil. reflexivity.
Qed.

(** The resolver on a name the catalog does not own but [Object.prototype]
    has. *)
Lemma getClosestSpriteNoteData_inherited st obj instr len p :
  audioSpriteInstrumentsData st = Some obj ->
  obj !! instr = None ->
  Object_prototype !! instr = Some len ->
  getClosestSpriteNoteData instr p st
  = (Throw (if is_zero len
            then Error (empty_instrument_data instr)
            else TypeError undefined_has_no_properties), st).
Proof.
  intros Hdata Hown Hproto.
  unfold getClosestSpriteNoteData, bind, gets, lift, throw.
  rewrite Hdata. cbn [mbind option_bind]. unfold instrument_data, get.
  rewrite Hown, Hproto. cbn [length_of elements].
  destruct (is_zero len); [reflexivity|].
  destruct len as [n|].
  - rewrite binarySearch_nil.
    destruct (decide (0 <= n - 1)); [reflexivity|].
    rewrite element_nil. reflexivity.
  - rewrite element_nil. reflexivity.
Qed.

Lemma getClosestSpriteNoteData_absent st instr p :
  audioSpriteInstrumentsData st = None
  \/ (exists obj, audioSpriteInstrumentsData st = Some obj
                  /\ obj !! instr = None
                  /\ Object_prototype !! instr = None) ->
  getClosestSpriteNoteData instr p st
  = (Throw (TypeError (no_such_instrument instr)), st).
Proof.
  intros [Hnone | (obj & Hdata & Hown & Hproto)];
    unfold getClosestSpriteNoteData, bind, gets.
  - rewrite Hnone. reflexivity.
  - rewrite Hdata. cbn [mbind option_bind]. unfold instrument_data, get.
    rewrite Hown, Hproto. reflexivity.
Qed.

Lemma getClosestSpriteNoteData_empty st obj instr p :
  audioSpriteInstrumentsData st = Some obj ->
  obj !! instr = Some [] ->
  getClosestSpriteNoteData instr p st
  = (Throw (Error (empty_instrument_data instr)), st).
Proof.
  intros Hdata Hown.
  unfold getClosestSpriteNoteData, bind, gets.
  rewrite Hdata. cbn [mbind option_bind]. unfold instrument_data, get.
  rewrite Hown. reflexivity.
Qed.

(** C8, at requests the code can receive. The shipped catalog has no
    entry named toString or constructor, yet the resolver does not throw the
    TypeError that names the instrument: the read of the catalog finds what
    every object inherits under these names, so for toString (a function of
    length 0) it throws the Error for an empty descriptor array, and for
    constructor the TypeError of reading a property of undefined. *)
Theorem resolve_inherited_name :
  (nylonGuitarAudioSpriteData !! "toString"%string = None
   /\ getClosestSpriteNoteData "toString" 60 st_guitar
      = (Throw (Error (empty_instrument_data "toString")), st_guitar))
  /\
  (nylonGuitarAudioSpriteData !! "constructor"%string = None
   /\ getClosestSpriteNoteData "constructor" 60 st_guitar
      = (Throw (TypeError undefined_has_no_properties), st_guitar)).
Proof. repeat split; reflexivity. Qed.

(** X16. How the resolver fails. It throws the TypeError that names the
    instrument when no catalog is loaded, or when the catalog has no entry
    of that name and the name is not one of those every object inherits. It
    throws the Error for an empty array when the entry is an empty array.
    For a name the catalog does not own but every object inherits, it
    throws that same Error when the inherited function has length 0, and the
    TypeError of reading a property of undefined otherwise. In each case no
    descriptor is returned and the state is unchanged. *)
Theorem resolve_unknown_or_empty st instr p :
  (audioSpriteInstrumentsData st = None
   \/ (exists obj, audioSpriteInstrumentsData st = Some obj
                   /\ obj !! instr = None
                   /\ Object_prototype !! instr = None) ->
   getClosestSpriteNoteData instr p st
   = (Throw (TypeError (no_such_instrument instr)), st))
  /\
  (forall obj, audioSpriteInstrumentsData st = Some obj ->
     obj !! instr = Some [] ->
     getClosestSpriteNoteData instr p st
     = (Throw (Error (empty_instrument_data instr)), st))
  /\
  (forall obj len, audioSpriteInstrumentsData st = Some obj ->
     obj !! instr = None ->
     Object_prototype !! instr = Some len ->
     getClosestSpriteNoteData instr p st
     = (Throw (if is_zero len
               then Error (empty_instrument_data instr)
               else TypeError undefined_has_no_properties), st)).
Proof.
  split; [|split].
  - apply getClosestSpriteNoteData_absent.
  - intros obj. apply getClosestSpriteNoteData_empty.
  - intros obj len. apply getClosestSpriteNoteData_inherited.
Qed.

Lemma resolve_unknown_or_empty_witness :
  getClosestSpriteNoteData "nonexistent" 60 st_guitar
  = (Throw (TypeError (no_such_instrument "nonexistent")), st_guitar)
  /\
  getClosestSpriteNoteData "flute" 60 st_empty_instrument
  = (Throw (Error (empty_instrument_data "flute")), st_empty_instrument)
  /\
  getClosestSpriteNoteData "valueOf" 60 st_guitar
  = (Throw (Error (empty_instrument_data "valueOf")), st_guitar).
Proof.
  split; [|split].
  - apply (proj1 (resolve_unknown_or_empty st_guitar "nonexistent" 60)).
    right. exists nylonGuitarAudioSpriteData. repeat split; reflexivity.
  - apply (proj1 (proj2 (resolve_unknown_or_empty st_empty_instrument
                           "flute" 60))
             {[ "guitar"%string := guitar; "flute"%string := [] ]});
      reflexivity.
  - apply (proj2 (proj2 (resolve_unknown_or_empty st_guitar "valueOf" 60))
             nylonGuitarAudioSpriteData (Some 0)); reflexivity.
Defined.

Lemma sorted_first_least a t d :
  sorted_by_rangeStart (a :: t) = true -> d ∈ a :: t ->
  midiNoteRangeStart a <= midiNoteRangeStart d.
Proof.
  intros Hs Hd. apply elem_of_cons in Hd as [->|Hd]; [lia|].
  apply (sorted_head_least t); assumption.
Qed.

(** C4, as the code has it. On a non-empty descriptor array sorted by
    rangeStart: a pitch strictly below the first rangeStart resolves to the
    first descriptor with rangeStart set to 0 and every other field kept; a
    pitch strictly above the last rangeEnd that no descriptor's range
    contains and that is not below the first rangeStart resolves to the
    last descriptor with rangeEnd set to 127 and every other field kept. *)
Theorem resolve_widens_at_the_ends st data instr l first final p :
  audioSpriteInstrumentsData st = Some data ->
  data !! instr = Some l ->
  sorted_by_rangeStart l = true ->
  head l = Some first ->
  last l = Some final ->
  (p < midiNoteRangeStart first ->
   getClosestSpriteNoteData instr p st
   = (Normal {| midiNoteNumber := midiNoteNumber first;
                midiNoteRangeStart := 0;
                midiNoteRangeEnd := midiNoteRangeEnd first;
                noteStart := noteStart first;
                noteDuration := noteDuration first;
                loopStart := loopStart first;
                loopEnd := loopEnd first |}, st))
  /\
  (midiNoteRangeEnd final < p ->
   (forall d, d ∈ l -> ~ in_range d p) ->
   midiNoteRangeStart first <= p ->
   getClosestSpriteNoteData instr p st
   = (Normal {| midiNoteNumber := midiNoteNumber final;
                midiNoteRangeStart := midiNoteRangeStart final;
                midiNoteRangeEnd := 127;
                noteStart := noteStart final;
                noteDuration := noteDuration final;
                loopStart := loopStart final;
                loopEnd := loopEnd final |}, st)).
Proof.
  intros Hdata Hl Hsorted Hfirst Hfinal.
  assert (Hne : l <> []) by (intros ->; discriminate).
  rewrite (getClosestSpriteNoteData_known st data instr l p Hdata Hl Hne).
  destruct l as [|a t]; [congruence|]. injection Hfirst as ->.
  split.
  - intros Hbelow.
    unfold bind, lift.
    rewrite binarySearch_miss; [| lia | lia |].
    + rewrite element_first.
      destruct (Z.ltb_spec p (midiNoteRangeStart first)); [reflexivity | lia].
    + intros d Hd Hin. unfold in_range in Hin.
      pose proof (sorted_first_least first t d Hsorted Hd). lia.
  - intros Habove Hnone Hnotbelow.
    unfold bind, lift.
    rewrite binarySearch_miss; [| lia | lia | exact Hnone].
    rewrite element_first.
    destruct (Z.ltb_spec p (midiNoteRangeStart first)); [lia|].
    rewrite (element_last _ _ Hfinal).
    destruct (Z.ltb_spec (midiNoteRangeEnd final) p); [reflexivity | lia].
Qed.

Lemma resolve_widens_at_the_ends_witness :
  getClosestSpriteNoteData "guitar" 0 st_short
  = (Normal (sprite 40 0 60 0 2 1.5 1.9)%float, st_short)
  /\
  getClosestSpriteNoteData "guitar" 127 st_short
  = (Normal (sprite 80 61 127 3 2 4.5 4.9)%float, st_short).
Proof.
  pose proof (resolve_widens_at_the_ends st_short
                {[ "guitar"%string := short_of_the_ends ]} "guitar"
                short_of_the_ends
                (sprite 40 5 60 0 2 1.5 1.9)%float
                (sprite 80 61 120 3 2 4.5 4.9)%float) as H.
  split.
  - apply (H 0); [reflexivity..| cbn; lia].
  - apply (H 127); [reflexivity..| cbn; lia | | cbn; lia].
    intros d Hd [Hlo Hhi]. unfold short_of_the_ends in Hd.
    repeat (apply elem_of_cons in Hd as [->|Hd]; [cbn in Hhi; lia|]).
    inversion Hd.
Defined.

(** The second half of C4 as it is stated, with sortedness alone, fails
    in two ways. When an earlier descriptor reaches over the later ones, the
    search finds that descriptor and returns it as it is. When a range ends
    before it starts, a pitch between its two ends is above the last
    rangeEnd and below the first rangeStart, and it is the lower end that
    is widened. *)
Lemma upper_widening_needs_a_miss :
  (sorted_by_rangeStart reaching_over = true
   /\ last reaching_over = Some (sprite 55 50 60 3 2 4.5 4.9)%float
   /\ midiNoteRangeEnd (sprite 55 50 60 3 2 4.5 4.9)%float < 100
   /\ getClosestSpriteNoteData "guitar" 100
        (ready {[ "guitar"%string := reaching_over ]} 0%float)
      = (Normal (sprite 40 0 127 0 2 1.5 1.9)%float,
         ready {[ "guitar"%string := reaching_over ]} 0%float)
   /\ (sprite 40 0 127 0 2 1.5 1.9)%float
      <> extend_up (sprite 55 50 60 3 2 4.5 4.9)%float)
  /\
  (sorted_by_rangeStart back_to_front = true
   /\ last back_to_front = Some (sprite 40 50 10 0 2 1.5 1.9)%float
   /\ midiNoteRangeEnd (sprite 40 50 10 0 2 1.5 1.9)%float < 30
   /\ getClosestSpriteNoteData "guitar" 30
        (ready {[ "guitar"%string := back_to_front ]} 0%float)
      = (Normal (sprite 40 0 10 0 2 1.5 1.9)%float,
         ready {[ "guitar"%string := back_to_front ]} 0%float)
   /\ (sprite 40 0 10 0 2 1.5 1.9)%float
      <> extend_up (sprite 40 50 10 0 2 1.5 1.9)%float).
Proof.
  split; repeat split; try reflexivity; discriminate.
Qed.

Lemma non_overlapping_head a t d :
  non_overlapping (a :: t) = true -> d ∈ t -> overlap a d = false.
Proof.
  cbn [non_overlapping]. intros H Hd. apply andb_true_iff in H as [H _].
  rewrite forallb_forall in H. apply negb_true_iff. apply H.
  apply list_elem_of_In. exact Hd.
Qed.

Lemma non_overlapping_tail a t :
  non_overlapping (a :: t) = true -> non_overlapping t = true.
Proof. cbn [non_overlapping]. intros H. apply andb_true_iff in H. tauto. Qed.

(** On sorted, pairwise non-overlapping ranges that start no later than
    they end, a pitch above the last rangeEnd is in no range and is not
    below the first rangeStart: the two conditions of the second half of
    [resolve_widens_at_the_ends] hold by themselves. *)
Lemma above_all_disjoint_ranges l : forall first final p,
  sorted_by_rangeStart l = true ->
  non_overlapping l = true ->
  forallb (fun d => midiNoteRangeStart d <=? midiNoteRangeEnd d) l = true ->
  head l = Some first -> last l = Some final ->
  midiNoteRangeEnd final < p ->
  (forall d, d ∈ l -> ~ in_range d p) /\ midiNoteRangeStart first <= p.
Proof.
  induction l as [|a t IH]; intros first final p Hs Hn Hw Hfirst Hfinal Hp.
  - discriminate.
  - injection Hfirst as ->.
    cbn [forallb] in Hw. apply andb_true_iff in Hw as [Hwa Hwt].
    apply Z.leb_le in Hwa.
    destruct t as [|b t].
    + injection Hfinal as <-. split; [|lia].
      intros d Hd [_ Hhi]. apply list_elem_of_singleton in Hd as ->. lia.
    + rewrite last_cons_cons in Hfinal.
      destruct (IH b final p (sorted_tail _ _ Hs) (non_overlapping_tail _ _ Hn)
                  Hwt eq_refl Hfinal Hp) as [Hnone Hb].
      pose proof (sorted_head_least (b :: t) first b Hs ltac:(left)) as Hab.
      split; [|lia].
      intros d Hd Hin. apply elem_of_cons in Hd as [->|Hd].
      * assert (Hfb : final ∈ b :: t).
        { apply list_elem_of_lookup. exists (Nat.pred (length (b :: t))).
          rewrite <- last_lookup. exact Hfinal. }
        pose proof (non_overlapping_head _ _ _ Hn Hfb) as Hov.
        pose proof (sorted_head_least (b :: t) first final Hs Hfb) as Haf.
        assert (Hwf : midiNoteRangeStart final <= midiNoteRangeEnd final).
        { rewrite forallb_forall in Hwt. apply Z.leb_le. apply Hwt.
          apply list_elem_of_In. exact Hfb. }
        unfold overlap in Hov. apply Z.leb_gt in Hov.
        unfold in_range in Hin. lia.
      * exact (Hnone d Hd Hin).
Qed.

(** C5. When no descriptor's range contains the pitch, and the pitch is
    neither below the first rangeStart nor above the last rangeEnd, the
    resolver logs a warning and returns a descriptor of the array whose
    sampled pitch is nearest to the requested one. *)
Theorem resolve_gap_falls_back_to_nearest st data instr l first final p :
  audioSpriteInstrumentsData st = Some data ->
  data !! instr = Some l ->
  head l = Some first ->
  last l = Some final ->
  (forall d, d ∈ l -> ~ in_range d p) ->
  midiNoteRangeStart first <= p ->
  p <= midiNoteRangeEnd final ->
  exists d,
    getClosestSpriteNoteData instr p st
    = (Normal d, with_console (console st ++ [console_warn_not_in_range p]) st)
    /\ nearest l p d.
Proof.
  intros Hdata Hl Hfirst Hfinal Hnone Hlo Hhi.
  assert (Hne : l <> []) by (intros ->; discriminate).
  rewrite (getClosestSpriteNoteData_known st data instr l p Hdata Hl Hne).
  destruct l as [|a t]; [congruence|]. injection Hfirst as ->.
  unfold bind, lift.
  rewrite binarySearch_miss; [| lia | lia | exact Hnone].
  rewrite element_first.
  destruct (Z.ltb_spec p (midiNoteRangeStart first)); [lia|].
  rewrite (element_last _ _ Hfinal).
  destruct (Z.ltb_spec (midiNoteRangeEnd final) p); [lia|].
  unfold log, ret.
  eexists. split; [reflexivity|].
  apply (closestLoop_nearest p t first).
Qed.

Lemma resolve_gap_falls_back_to_nearest_witness :
  exists d,
    getClosestSpriteNoteData "guitar" 15 st_gap
    = (Normal d,
       with_console (console st_gap ++ [console_warn_not_in_range 15]) st_gap)
    /\ nearest with_a_gap 15 d.
Proof.
  apply (resolve_gap_falls_back_to_nearest st_gap
           {[ "guitar"%string := with_a_gap ]} "guitar" with_a_gap
           (sprite 5 0 10 0 2 1.5 1.9)%float
           (sprite 24 20 127 3 2 4.5 4.9)%float 15);
    [reflexivity | reflexivity | reflexivity | reflexivity | | cbn; lia
    | cbn; lia].
  intros d Hd [Hlo Hhi]. unfold with_a_gap in Hd.
  apply elem_of_cons in Hd as [->|Hd]; [cbn in Hhi; lia|].
  apply elem_of_cons in Hd as [->|Hd]; [cbn in Hlo; lia|].
  inversion Hd.
Defined.

(** ** The resolver inside the scheduler *)

Lemma with_console_same st : with_console (console st ++ []) st = st.
Proof. rewrite app_nil_r. destruct st. reflexivity. Qed.

(** The resolver reads the catalog only, and at most appends its warning to
    the console. *)
Lemma getClosestSpriteNoteData_uniform data instr p :
  exists r logged,
    (logged = [] \/ logged = [console_warn_not_in_range p])
    /\ forall st, audioSpriteInstrumentsData st = data ->
         getClosestSpriteNoteData instr p st
         = (r, with_console (console st ++ logged) st).
Proof.
  unfold getClosestSpriteNoteData, bind, gets, lift, ret, throw, log.
  cbn zeta.
  destruct (data ≫= (fun obj => instrument_data obj instr))
    as [instrumentData|] eqn:Hl.
  2: { eexists _, []. split; [left; reflexivity|]. intros st <-.
       rewrite Hl, with_console_same. reflexivity. }
  destruct (is_zero (length_of instrumentData)) eqn:Hzero.
  { eexists _, []. split; [left; reflexivity|]. intros st <-.
    rewrite Hl, Hzero, with_console_same. reflexivity. }
  destruct (match length_of instrumentData with
            | Some len => binarySearch (elements instrumentData) p 0 (len - 1)
            | None => Normal None
            end) as [[found|]|e] eqn:Hsearch.
  { eexists _, []. split; [left; reflexivity|]. intros st <-.
    rewrite Hl, Hzero, Hsearch, with_console_same. reflexivity. }
  2: { eexists _, []. split; [left; reflexivity|]. intros st <-.
       rewrite Hl, Hzero, Hsearch, with_console_same. reflexivity. }
  destruct (element (elements instrumentData) 0) as [first|e] eqn:Hfirst.
  2: { eexists _, []. split; [left; reflexivity|]. intros st <-.
       rewrite Hl, Hzero, Hsearch, Hfirst, with_console_same. reflexivity. }
  destruct (p <? midiNoteRangeStart first) eqn:Hlow.
  { eexists _, []. split; [left; reflexivity|]. intros st <-.
    rewrite Hl, Hzero, Hsearch, Hfirst, Hlow, with_console_same.
    reflexivity. }
  destruct (match length_of instrumentData with
            | Some len => element (elements instrumentData) (len - 1)
            | None => Throw (TypeError undefined_has_no_properties)
            end) as [final|e] eqn:Hlast.
  2: { eexists _, []. split; [left; reflexivity|]. intros st <-.
       rewrite Hl, Hzero, Hsearch, Hfirst, Hlow, Hlast, with_console_same.
       reflexivity. }
  destruct (midiNoteRangeEnd final <? p) eqn:Hhigh.
  { eexists _, []. split; [left; reflexivity|]. intros st <-.
    rewrite Hl, Hzero, Hsearch, Hfirst, Hlow, Hlast, Hhigh,
      with_console_same.
    reflexivity. }
  eexists _, [_]. split; [right; reflexivity|]. intros st <-.
  rewrite Hl, Hzero, Hsearch, Hfirst, Hlow, Hlast, Hhigh.
  reflexivity.
Qed.

(** Creating nodes before the resolver runs does not change its answer. *)
Lemma getClosestSpriteNoteData_with_context c instr p st r st1 :
  getClosestSpriteNoteData instr p st = (r, st1) ->
  getClosestSpriteNoteData instr p (with_context c st)
  = (r, with_context c st1).
Proof.
  intros H.
  destruct (getClosestSpriteNoteData_uniform
              (audioSpriteInstrumentsData st) instr p)
    as (r' & logged & _ & Hu).
  rewrite (Hu st eq_refl) in H. injection H as <- <-.
  rewrite (Hu (with_context c st) eq_refl). reflexivity.
Qed.

Lemma getClosestSpriteNoteData_frame instr p st r st1 :
  getClosestSpriteNoteData instr p st = (r, st1) ->
  exists logged,
    (logged = [] \/ logged = [console_warn_not_in_range p])
    /\ st1 = with_console (console st ++ logged) st.
Proof.
  intros H.
  destruct (getClosestSpriteNoteData_uniform
              (audioSpriteInstrumentsData st) instr p)
    as (r' & logged & Hlogged & Hu).
  rewrite (Hu st eq_refl) in H. injection H as <- <-. eauto.
Qed.

(** ** The scheduler *)

(** The calls that configure looping, and the duration that is scheduled,
    as they come out of the branch on [isLongNote] and the loop points. *)
Lemma webNotePlayerOn_body_finite st ctx instr p uuid t vol delay d st1 :
  webNoteAudioContext st = Some ctx ->
  getClosestSpriteNoteData instr p st = (Normal d, st1) ->
  let n := allocated ctx in
  let g := S (allocated ctx) in
  let startTime := (currentTime ctx + delay)%float in
  exists looping t',
    match PrimFloat.ltb (noteDuration d) t, loopStart d, loopEnd d with
    | true, Some ls, Some le =>
        looping = [set_loopStart n ls; set_loopEnd n le; set_loop n true]
        /\ t' = t
    | true, _, _ => looping = [set_loop n false] /\ t' = noteDuration d
    | false, _, _ => looping = [set_loop n false] /\ t' = t
    end
    /\ webNotePlayerOn_body instr p uuid (Some t) vol delay st
       = (Normal tt,
          with_context
            (Some {| currentTime := currentTime ctx;
                     allocated := S (S (allocated ctx));
                     calls :=
                       calls ctx
                       ++ [createBufferSource n; createGain g;
                           set_buffer n (audioSpriteBuffer st)]
                       ++ looping
                       ++ [connect n (to_node g); connect g to_destination;
                           set_detune n ((p - midiNoteNumber d) * 100);
                           set_gain g vol;
                           setTargetAtTime g 0%float (startTime + t')%float
                             GAIN_TIME_CONSTANT;
                           start n startTime (noteStart d)
                             (Some (t' + EXTRA_NOTE_DURATION)%float)] |})
            st1).
Proof.
  intros Hctx Hres n g startTime.
  destruct (getClosestSpriteNoteData_uniform
              (audioSpriteInstrumentsData st) instr p)
    as (r & logged & _ & Hu).
  rewrite (Hu st eq_refl) in Hres. injection Hres as -> <-.
  destruct st as [c data sprite voices logs].
  cbn in Hctx. cbn [audioSpriteInstrumentsData] in Hu. subst c.
  unfold webNotePlayerOn_body, try_catch, bind, gets, create, audio, ret,
    throw, get_currentTime, greater_than.
  cbn -[getClosestSpriteNoteData PrimFloat.ltb].
  rewrite Hu by reflexivity.
  destruct (PrimFloat.ltb (noteDuration d) t);
    destruct (loopStart d) as [ls|]; destruct (loopEnd d) as [le|];
    cbn; eexists _, _; (split; [split; reflexivity|]);
    repeat rewrite <- app_assoc; reflexivity.
Qed.

Lemma default_parameter_is_defined {A} (dflt : A) (argument : option A) :
  default_parameter_or_undefined (Some dflt) argument
  = Some (default_parameter dflt argument).
Proof. destruct argument; reflexivity. Qed.

(** C6. A note whose duration (given, or the default of one second) is
    greater than the natural duration of the resolved descriptor: when the
    descriptor does not define both loop points, the source is set not to
    loop, the fade begins at start + segment duration and the source is
    started for segment duration + 0.3 s, so the requested duration is
    replaced by the segment's; when it defines both, loopStart and loopEnd
    are copied to the source and the source is set to loop. *)
Theorem note_longer_than_its_segment
    st ctx instr p uuid dur vol delay d st1 :
  webNoteAudioContext st = Some ctx ->
  getClosestSpriteNoteData instr p st = (Normal d, st1) ->
  PrimFloat.ltb (noteDuration d) (default_parameter 1%float dur) = true ->
  let t := default_parameter 1%float dur in
  let n := allocated ctx in
  let g := S (allocated ctx) in
  let startTime :=
    (currentTime ctx + default_parameter 0%float delay)%float in
  (loopStart d = None \/ loopEnd d = None ->
   webNotePlayerOn instr p uuid dur vol delay st
   = (Normal tt,
      with_context
        (Some {| currentTime := currentTime ctx;
                 allocated := S (S (allocated ctx));
                 calls :=
                   calls ctx
                   ++ [createBufferSource n; createGain g;
                       set_buffer n (audioSpriteBuffer st);
                       set_loop n false;
                       connect n (to_node g); connect g to_destination;
                       set_detune n ((p - midiNoteNumber d) * 100);
                       set_gain g (default_parameter 0.6%float vol);
                       setTargetAtTime g 0%float
                         (startTime + noteDuration d)%float 0.05%float;
                       start n startTime (noteStart d)
                         (Some (noteDuration d + 0.3)%float)] |})
        st1))
  /\
  (forall ls le, loopStart d = Some ls -> loopEnd d = Some le ->
   webNotePlayerOn instr p uuid dur vol delay st
   = (Normal tt,
      with_context
        (Some {| currentTime := currentTime ctx;
                 allocated := S (S (allocated ctx));
                 calls :=
                   calls ctx
                   ++ [createBufferSource n; createGain g;
                       set_buffer n (audioSpriteBuffer st);
                       set_loopStart n ls; set_loopEnd n le; set_loop n true;
                       connect n (to_node g); connect g to_destination;
                       set_detune n ((p - midiNoteNumber d) * 100);
                       set_gain g (default_parameter 0.6%float vol);
                       setTargetAtTime g 0%float (startTime + t)%float
                         0.05%float;
                       start n startTime (noteStart d)
                         (Some (t + 0.3)%float)] |})
        st1)).
Proof.
  intros Hctx Hres Hlong t n g startTime.
  unfold webNotePlayerOn. rewrite default_parameter_is_defined.
  destruct (webNotePlayerOn_body_finite st ctx instr p
              (default_parameter_or_undefined None uuid) t
              (default_parameter 0.6%float vol)
              (default_parameter 0%float delay) d st1 Hctx Hres)
    as (looping & t' & Hcase & Hrun).
  fold t in Hlong. rewrite Hlong in Hcase. fold t. rewrite Hrun. clear Hrun.
  split.
  - intros Hnone.
    assert (looping = [set_loop n false] /\ t' = noteDuration d) as [-> ->].
    { destruct (loopStart d), (loopEnd d); try exact Hcase.
      destruct Hnone; discriminate. }
    reflexivity.
  - intros ls le Hls Hle. rewrite Hls, Hle in Hcase.
    destruct Hcase as [-> ->]. reflexivity.
Qed.

Lemma note_longer_than_its_segment_witness :
  webNotePlayerOn "plucked" 63 None (Some 10%float) None None
    st_two_instruments
  = (Normal tt,
     with_context
       (Some {| currentTime := 5; allocated := 2;
                calls := [createBufferSource 0%nat; createGain 1%nat;
                          set_buffer 0%nat (Some {| buffer_duration := 24 |});
                          set_loop 0%nat false;
                          connect 0%nat (to_node 1%nat);
                          connect 1%nat to_destination;
                          set_detune 0%nat 300;
                          set_gain 1%nat 0.6;
                          setTargetAtTime 1%nat 0 7 0.05;
                          start 0%nat 5 4 (Some 2.3)] |}%float)
       st_two_instruments)
  /\
  webNotePlayerOn "guitar" 50 None (Some 10%float) None None
    st_two_instruments
  = (Normal tt,
     with_context
       (Some {| currentTime := 5; allocated := 2;
                calls := [createBufferSource 0%nat; createGain 1%nat;
                          set_buffer 0%nat (Some {| buffer_duration := 24 |});
                          set_loopStart 0%nat 13.508707482993199;
                          set_loopEnd 0%nat 13.535963718820861;
                          set_loop 0%nat true;
                          connect 0%nat (to_node 1%nat);
                          connect 1%nat to_destination;
                          set_detune 0%nat 0;
                          set_gain 1%nat 0.6;
                          setTargetAtTime 1%nat 0 15 0.05;
                          start 0%nat 5 9 (Some 10.3)] |}%float)
       st_two_instruments).
Proof.
  split.
  - refine (proj1 (note_longer_than_its_segment st_two_instruments
                     {| currentTime := 5; allocated := 0; calls := [] |}
                     "plucked" 63 None (Some 10%float) None None
                     {| midiNoteNumber := 60; midiNoteRangeStart := 0;
                        midiNoteRangeEnd := 127;
                        noteStart := 4; noteDuration := 2;
                        loopStart := None; loopEnd := None |}
                     st_two_instruments _ _ _) _);
      [reflexivity | reflexivity | reflexivity | left; reflexivity].
  - refine (proj2 (note_longer_than_its_segment st_two_instruments
                     {| currentTime := 5; allocated := 0; calls := [] |}
                     "guitar" 50 None (Some 10%float) None None
                     (sprite 50 49 53 9 4.537324263038549
                        13.508707482993199 13.535963718820861)
                     st_two_instruments _ _ _) _ _ _ _);
      reflexivity.
Defined.

(** C9. Whenever the resolver returns a descriptor for the request, the
    source node the request creates ends with its detune set to
    (requested pitch - sampled pitch of the descriptor) * 100 cents. *)
Theorem detune_is_the_pitch_difference_in_cents
    st ctx instr p uuid dur vol delay d st1 :
  webNoteAudioContext st = Some ctx ->
  getClosestSpriteNoteData instr p st = (Normal d, st1) ->
  exists ctx' rest,
    webNoteAudioContext
      (snd (webNotePlayerOn instr p uuid dur vol delay st)) = Some ctx'
    /\ calls ctx' = calls ctx ++ createBufferSource (allocated ctx) :: rest
    /\ detune_value (allocated ctx) (calls ctx')
       = Some ((p - midiNoteNumber d) * 100).
Proof.
  intros Hctx Hres.
  unfold webNotePlayerOn. rewrite default_parameter_is_defined.
  destruct (webNotePlayerOn_body_finite st ctx instr p
              (default_parameter_or_undefined None uuid)
              (default_parameter 1%float dur)
              (default_parameter 0.6%float vol)
              (default_parameter 0%float delay) d st1 Hctx Hres)
    as (looping & t' & Hcase & Hrun).
  rewrite Hrun. cbn [snd with_context webNoteAudioContext].
  eexists _, _. split; [reflexivity|]. cbn [calls]. split; [reflexivity|].
  unfold detune_value. rewrite !foldl_app.
  assert (Hlooping : looping = [set_loop (allocated ctx) false]
                     \/ exists ls le,
                          looping = [set_loopStart (allocated ctx) ls;
                                     set_loopEnd (allocated ctx) le;
                                     set_loop (allocated ctx) true]).
  { destruct (PrimFloat.ltb _ _), (loopStart d), (loopEnd d);
      destruct Hcase as [-> _]; eauto. }
  destruct Hlooping as [-> | (ls & le & ->)]; cbn;
    rewrite Nat.eqb_refl; reflexivity.
Qed.

Lemma detune_is_the_pitch_difference_in_cents_witness :
  exists ctx' rest,
    webNoteAudioContext
      (snd (webNotePlayerOn "plucked" 63 None None None None
              st_two_instruments)) = Some ctx'
    /\ calls ctx' = [] ++ createBufferSource 0%nat :: rest
    /\ detune_value 0%nat (calls ctx') = Some 300.
Proof.
  apply (detune_is_the_pitch_difference_in_cents st_two_instruments
           {| currentTime := 5; allocated := 0; calls := [] |}
           "plucked" 63 None None None None
           {| midiNoteNumber := 60; midiNoteRangeStart := 0;
              midiNoteRangeEnd := 127;
              noteStart := 4%float; noteDuration := 2%float;
              loopStart := None; loopEnd := None |}
           st_two_instruments);
    reflexivity.
Defined.

(** ** webNotePlayerOff *)

(** C7, at a request the code can receive. On an initialised player
    whose table of sounding notes is empty, a stop request for the
    identifier toString does not log the warning and return: the read of
    the table finds what every object inherits under that name, the branch
    for a sounding note is taken, and reading its gain throws a TypeError
    that nothing catches. Nothing is logged and no audio call is made. *)
Theorem stop_request_for_an_inherited_name :
  webNoteAudioBuffers st_guitar !! "toString"%string = None
  /\ webNotePlayerOff "toString" st_guitar
     = (Throw (TypeError undefined_has_no_properties), st_guitar).
Proof. split; reflexivity. Qed.

(** X15. On an initialised player. Stopping an identifier that is not in
    the table of sounding notes and is not a name every object inherits
    only logs the warning: nothing is thrown and the table and the audio
    context stay as they were. Stopping one that is in the table cancels
    the scheduled gain changes, schedules the fade to silence from the
    current time with time constant 0.05, schedules the source to stop
    0.3 s later and removes the entry at once; when the identifier is not
    an inherited name, a second stop of it, at whatever later time, only
    logs the warning. Stopping an identifier that is not in the table but
    is an inherited name throws a TypeError and changes nothing. *)
Theorem stopping_a_note st ctx uuid :
  webNoteAudioContext st = Some ctx ->
  (webNoteAudioBuffers st !! uuid = None ->
   Object_prototype !! uuid = None ->
   webNotePlayerOff uuid st
   = (Normal tt,
      with_console (console st ++ [console_warn_nonexistent_note uuid]) st))
  /\
  (forall v, webNoteAudioBuffers st !! uuid = Some v ->
   let stopped :=
     with_voices (delete uuid (webNoteAudioBuffers st))
       (with_context
          (Some {| currentTime := currentTime ctx;
                   allocated := allocated ctx;
                   calls :=
                     calls ctx
                     ++ [cancelScheduledValues (gain v) 0%float;
                         setTargetAtTime (gain v) 0%float (currentTime ctx)
                           0.05%float;
                         stop (buffer v)
                           (currentTime ctx + 0.3)%float] |})
          st) in
   webNotePlayerOff uuid st = (Normal tt, stopped)
   /\ webNoteAudioBuffers stopped !! uuid = None
   /\ (Object_prototype !! uuid = None ->
       forall later,
         webNotePlayerOff uuid (advance later stopped)
         = (Normal tt,
            with_console
              (console stopped ++ [console_warn_nonexistent_note uuid])
              (advance later stopped))))
  /\
  (forall len, webNoteAudioBuffers st !! uuid = None ->
   Object_prototype !! uuid = Some len ->
   webNotePlayerOff uuid st
   = (Throw (TypeError undefined_has_no_properties), st)).
Proof.
  intros Hctx.
  destruct st as [c data sprite voices logs]. cbn in Hctx. subst c.
  split; [|split].
  - cbn. intros Hnone Hproto.
    unfold webNotePlayerOff, bind, gets, log, get. cbn.
    rewrite Hnone, Hproto. reflexivity.
  - cbn. intros v Hv. split; [|split].
    + unfold webNotePlayerOff, bind, gets, get_currentTime, audio,
        delete_voice, get, lift.
      cbn. rewrite Hv. cbn. repeat rewrite <- app_assoc. reflexivity.
    + apply lookup_delete_eq.
    + intros Hproto later.
      unfold webNotePlayerOff, bind, gets, log, get. cbn.
      rewrite lookup_delete_eq, Hproto. reflexivity.
  - cbn. intros len Hnone Hproto.
    unfold webNotePlayerOff, bind, gets, get_currentTime, lift, get. cbn.
    rewrite Hnone, Hproto. reflexivity.
Qed.

Lemma body_with_undefined_duration_registers :
  webNotePlayerOn_body "guitar" 60 (Some "a"%string) None 0.6%float 0%float
    st_guitar
  = (Normal tt, st_sounding).
Proof. reflexivity. Qed.

Lemma stopping_a_note_witness :
  webNotePlayerOff "b" st_sounding
  = (Normal tt,
     with_console [console_warn_nonexistent_note "b"] st_sounding)
  /\
  webNotePlayerOff "a" st_sounding
  = (Normal tt,
     with_voices ∅
       (with_context
          (Some {| currentTime := 2; allocated := 2;
                   calls := [createBufferSource 0%nat; createGain 1%nat;
                             set_buffer 0%nat
                               (Some {| buffer_duration := 24 |});
                             set_loopStart 0%nat 18.410090702947844;
                             set_loopEnd 0%nat 18.418185941043085;
                             set_loop 0%nat true;
                             connect 0%nat (to_node 1%nat);
                             connect 1%nat to_destination;
                             set_detune 0%nat 100;
                             set_gain 1%nat 0.6;
                             start 0%nat 2 17 None;
                             cancelScheduledValues 1%nat 0;
                             setTargetAtTime 1%nat 0 2 0.05;
                             stop 0%nat 2.3] |}%float)
          st_guitar)).
Proof.
  pose proof (stopping_a_note st_sounding
                {| currentTime := 2; allocated := 2;
                   calls := [createBufferSource 0%nat; createGain 1%nat;
                             set_buffer 0%nat
                               (Some {| buffer_duration := 24 |});
                             set_loopStart 0%nat 18.410090702947844;
                             set_loopEnd 0%nat 18.418185941043085;
                             set_loop 0%nat true;
                             connect 0%nat (to_node 1%nat);
                             connect 1%nat to_destination;
                             set_detune 0%nat 100;
                             set_gain 1%nat 0.6;
                             start 0%nat 2 17 None] |}%float)
    as H.
  split.
  - apply (proj1 (H "b"%string eq_refl)); reflexivity.
  - apply (proj1 (proj2 (H "a"%string eq_refl))
             {| buffer := 0%nat; gain := 1%nat |}).
    reflexivity.
Defined.

(** Before initialisation a stop request only logs that the context is
    missing. *)
Lemma webNotePlayerOff_uninitialised st uuid :
  webNoteAudioContext st = None ->
  webNotePlayerOff uuid st
  = (Normal tt,
     with_console
       (console st ++ [console_error_text context_not_initialized]) st).
Proof.
  intros Hctx. unfold webNotePlayerOff, bind, gets. rewrite Hctx. reflexivity.
Qed.

(** ** Every path through webNotePlayerOn *)

Lemma element_throws {A} (l : list A) i e :
  element l i = Throw e -> e = TypeError undefined_has_no_properties.
Proof. unfold element. destruct (array_get l i); congruence. Qed.

Lemma binarySearch_throws l p low high e :
  binarySearch l p low high = Throw e ->
  e = TypeError undefined_has_no_properties.
Proof.
  remember (Z.to_nat (high - low + 1)) as n eqn:Hn.
  revert low high Hn.
  induction n as [n IH] using lt_wf_ind. intros low high Hn.
  rewrite binarySearch_step.
  destruct (decide (low <= high)) as [Hle|]; [|discriminate].
  pose proof (mid_between low high Hle) as Hmid.
  destruct (element l ((low + high) `div` 2)) as [c|e'] eqn:Hc.
  - destruct (andb _ _); [discriminate|].
    destruct (p <? midiNoteRangeStart c).
    + apply (IH (Z.to_nat ((low + high) `div` 2 - 1 - low + 1))); lia.
    + apply (IH (Z.to_nat (high - ((low + high) `div` 2 + 1) + 1))); lia.
  - intros [= <-]. apply (element_throws _ _ _ Hc).
Qed.

(** What the resolver can throw. *)
Lemma getClosestSpriteNoteData_throws_one_of instr p st e st1 :
  getClosestSpriteNoteData instr p st = (Throw e, st1) ->
  e = TypeError (no_such_instrument instr)
  \/ e = Error (empty_instrument_data instr)
  \/ e = TypeError undefined_has_no_properties.
Proof.
  unfold getClosestSpriteNoteData, bind, gets, lift, ret, throw, log.
  cbn zeta.
  destruct (audioSpriteInstrumentsData st ≫= _) as [instrumentData|];
    [|intros [= <- _]; auto].
  destruct (is_zero (length_of instrumentData)); [intros [= <- _]; auto|].
  destruct (match length_of instrumentData with
            | Some len => binarySearch (elements instrumentData) p 0 (len - 1)
            | None => Normal None
            end) as [[found|]|e'] eqn:Hb.
  - discriminate.
  - destruct (element (elements instrumentData) 0) as [first|e'] eqn:Hfirst.
    + destruct (p <? midiNoteRangeStart first); [discriminate|].
      destruct (match length_of instrumentData with
                | Some len => element (elements instrumentData) (len - 1)
                | None => Throw (TypeError undefined_has_no_properties)
                end) as [final|e'] eqn:Hfinal.
      * destruct (midiNoteRangeEnd final <? p); discriminate.
      * intros [= <- _]. destruct (length_of instrumentData).
        -- rewrite (element_throws _ _ _ Hfinal). auto.
        -- injection Hfinal as <-. auto.
    + intros [= <- _]. rewrite (element_throws _ _ _ Hfirst). auto.
  - intros [= <- _]. destruct (length_of instrumentData); [|discriminate].
    rewrite (binarySearch_throws _ _ _ _ _ Hb). auto.
Qed.

(** What the resolver throws is never the missing-uuid error. *)
Lemma getClosestSpriteNoteData_throws instr p st e st1 :
  getClosestSpriteNoteData instr p st = (Throw e, st1) ->
  e <> Error uuid_must_be_supplied.
Proof.
  intros H.
  destruct (getClosestSpriteNoteData_throws_one_of _ _ _ _ _ H)
    as [-> | [-> | ->]]; discriminate.
Qed.

Lemma webNotePlayerOn_body_uninitialised st instr p uuid duration vol delay :
  webNoteAudioContext st = None ->
  webNotePlayerOn_body instr p uuid duration vol delay st
  = (Normal tt,
     with_console
       (console st ++ [console_error (Error context_not_initialized)]) st).
Proof.
  intros Hctx.
  unfold webNotePlayerOn_body, try_catch.
  unfold bind at 1, gets at 1. rewrite Hctx. reflexivity.
Qed.

Lemma webNotePlayerOn_body_unresolved
    st ctx instr p uuid duration vol delay e st1 :
  webNoteAudioContext st = Some ctx ->
  getClosestSpriteNoteData instr p st = (Throw e, st1) ->
  webNotePlayerOn_body instr p uuid duration vol delay st
  = (Normal tt,
     with_console (console st1 ++ [console_error e])
       (with_context
          (Some {| currentTime := currentTime ctx;
                   allocated := S (S (allocated ctx));
                   calls := calls ctx
                            ++ [createBufferSource (allocated ctx);
                                createGain (S (allocated ctx))] |})
          st1)).
Proof.
  intros Hctx Hres.
  destruct (getClosestSpriteNoteData_uniform
              (audioSpriteInstrumentsData st) instr p)
    as (r & logged & _ & Hu).
  rewrite (Hu st eq_refl) in Hres. injection Hres as -> <-.
  destruct st as [c data sprite voices logs].
  cbn in Hctx. cbn [audioSpriteInstrumentsData] in Hu. subst c.
  unfold webNotePlayerOn_body, try_catch, bind, gets, create, ret, throw,
    log.
  cbn -[getClosestSpriteNoteData].
  rewrite Hu by reflexivity.
  cbn. rewrite <- (app_assoc (calls ctx)). reflexivity.
Qed.

Lemma webNotePlayerOn_nothing_sustained st instr p uuid dur vol delay :
  fst (webNotePlayerOn instr p uuid dur vol delay st) = Normal tt
  /\ nothing_sustained st
       (snd (webNotePlayerOn instr p uuid dur vol delay st)).
Proof.
  unfold webNotePlayerOn. rewrite default_parameter_is_defined.
  destruct (webNoteAudioContext st) as [ctx|] eqn:Hctx.
  2: { rewrite webNotePlayerOn_body_uninitialised by exact Hctx.
       split; [reflexivity|]. unfold nothing_sustained. cbn. rewrite Hctx.
       split; [reflexivity|]. split; [|exact I].
       eexists. split; [reflexivity|].
       intros H. apply list_elem_of_singleton in H. discriminate. }
  destruct (getClosestSpriteNoteData instr p st) as [[d|e] st1] eqn:Hres;
    destruct (getClosestSpriteNoteData_frame _ _ _ _ _ Hres)
      as (logged & Hlogged & ->).
  - destruct (webNotePlayerOn_body_finite st ctx instr p
                (default_parameter_or_undefined None uuid)
                (default_parameter 1%float dur)
                (default_parameter 0.6%float vol)
                (default_parameter 0%float delay) d _ Hctx Hres)
      as (looping & t' & Hcase & ->).
    split; [reflexivity|]. unfold nothing_sustained. cbn. rewrite Hctx.
    split; [reflexivity|]. split.
    + exists logged. split; [reflexivity|].
      destruct Hlogged as [-> | ->]; intros H.
      * inversion H.
      * apply list_elem_of_singleton in H. discriminate.
    + eexists. split; [reflexivity|]. intros n when offset H.
      assert (Hlooping : forall c, c ∈ looping ->
                forall m w o x, c <> start m w o x).
      { intros c Hc m w o x ->.
        destruct (PrimFloat.ltb _ _), (loopStart d), (loopEnd d);
          destruct Hcase as [-> _];
          repeat (apply elem_of_cons in Hc as [Hc|Hc]; [discriminate|]);
          inversion Hc. }
      repeat (apply elem_of_cons in H as [H|H]; [discriminate|]).
      apply elem_of_app in H as [H|H].
      * apply (Hlooping _ H n when offset None). reflexivity.
      * repeat (apply elem_of_cons in H as [H|H]; [discriminate|]).
        inversion H.
  - rewrite (webNotePlayerOn_body_unresolved st ctx _ _ _ _ _ _ e _ Hctx Hres).
    split; [reflexivity|]. unfold nothing_sustained. cbn. rewrite Hctx.
    split; [reflexivity|]. split.
    + exists (logged ++ [console_error e]). split.
      * rewrite app_assoc. reflexivity.
      * pose proof (getClosestSpriteNoteData_throws _ _ _ _ _ Hres) as He.
        intros H. apply elem_of_app in H as [H|H].
        -- destruct Hlogged as [-> | ->].
           ++ inversion H.
           ++ apply list_elem_of_singleton in H. discriminate.
        -- apply list_elem_of_singleton in H. congruence.
    + eexists. split; [reflexivity|]. intros n when offset H.
      repeat (apply elem_of_cons in H as [H|H]; [discriminate|]).
      inversion H.
Qed.

(** The four ways through webNotePlayerOff: no context; nothing under the
    identifier; a voice under it; something inherited under it. *)
Lemma webNotePlayerOff_paths st uuid :
  (webNoteAudioContext st = None
   /\ webNotePlayerOff uuid st
      = (Normal tt,
         with_console
           (console st ++ [console_error_text context_not_initialized]) st))
  \/
  (exists ctx,
     webNoteAudioContext st = Some ctx
     /\ webNoteAudioBuffers st !! uuid = None
     /\ Object_prototype !! uuid = None
     /\ webNotePlayerOff uuid st
        = (Normal tt,
           with_console (console st ++ [console_warn_nonexistent_note uuid])
             st))
  \/
  (exists ctx v,
     webNoteAudioContext st = Some ctx
     /\ webNoteAudioBuffers st !! uuid = Some v
     /\ webNotePlayerOff uuid st
        = (Normal tt,
           with_voices (delete uuid (webNoteAudioBuffers st))
             (with_context
                (Some {| currentTime := currentTime ctx;
                         allocated := allocated ctx;
                         calls :=
                           calls ctx
                           ++ [cancelScheduledValues (gain v) 0%float;
                               setTargetAtTime (gain v) 0%float
                                 (currentTime ctx) GAIN_TIME_CONSTANT;
                               stop (buffer v)
                                 (currentTime ctx
                                  + EXTRA_NOTE_DURATION)%float] |})
                st)))
  \/
  (exists ctx len,
     webNoteAudioContext st = Some ctx
     /\ webNoteAudioBuffers st !! uuid = None
     /\ Object_prototype !! uuid = Some len
     /\ webNotePlayerOff uuid st
        = (Throw (TypeError undefined_has_no_properties), st)).
Proof.
  destruct st as [c data sprite voices logs].
  destruct c as [ctx|].
  2: { left. split; reflexivity. }
  right. cbn [webNoteAudioBuffers webNoteAudioContext].
  destruct (voices !! uuid) as [v|] eqn:Hv.
  - right. left. exists ctx, v. split; [reflexivity|]. split; [reflexivity|].
    unfold webNotePlayerOff, bind, gets, get_currentTime, audio, delete_voice,
      get, lift.
    cbn. rewrite Hv. cbn. repeat rewrite <- app_assoc. reflexivity.
  - destruct (Object_prototype !! uuid) as [len|] eqn:Hproto.
    + right. right. exists ctx, len.
      split; [reflexivity|]. split; [reflexivity|]. split; [reflexivity|].
      unfold webNotePlayerOff, bind, gets, get_currentTime, get, lift.
      cbn. rewrite Hv, Hproto. reflexivity.
    + left. exists ctx.
      split; [reflexivity|]. split; [reflexivity|]. split; [reflexivity|].
      unfold webNotePlayerOff, bind, gets, log, get.
      cbn. rewrite Hv, Hproto. reflexivity.
Qed.

Lemma webNotePlayerOff_voices st uuid :
  webNoteAudioBuffers (snd (webNotePlayerOff uuid st))
  ⊆ webNoteAudioBuffers st.
Proof.
  destruct (webNotePlayerOff_paths st uuid)
    as [(_ & ->)
       | [(ctx & _ & _ & _ & ->)
         | [(ctx & v & _ & _ & ->) | (ctx & len & _ & _ & _ & ->)]]];
    cbn; try reflexivity.
  apply delete_subseteq.
Qed.

Lemma handle_voices ev st :
  webNoteAudioBuffers (handle ev st) ⊆ webNoteAudioBuffers st.
Proof.
  destruct ev as [detail | uuid | t]; cbn [handle].
  - destruct (webNotePlayerOn_nothing_sustained st
                (detail_instrumentAudio detail) (detail_midiNoteNumber detail)
                (detail_uuid detail) (detail_noteDuration detail)
                (detail_noteVolume detail) (detail_noteDelay detail))
      as (_ & Hsame & _).
    rewrite Hsame. reflexivity.
  - apply webNotePlayerOff_voices.
  - reflexivity.
Qed.

Lemma run_voices evs : forall st,
  webNoteAudioBuffers (run evs st) ⊆ webNoteAudioBuffers st.
Proof.
  induction evs as [|ev evs IH]; intros st.
  - reflexivity.
  - cbn. etransitivity; [apply IH | apply handle_voices].
Qed.

(** C10. The duration parameter is bound with its default of 1 whenever
    the argument is undefined, so inside the function it is never
    undefined. Hence every call of webNotePlayerOn, on every state and with
    every argument, returns without throwing, leaves the table of sounding
    notes as it was, logs no missing-uuid error and starts no source
    without a duration; and along every sequence of note-on and note-off
    events and clock movements the table only loses entries, so a table
    that is empty stays empty. *)
Theorem undefined_duration_never_reaches_the_body :
  (forall dur : option float,
     is_undefined (default_parameter_or_undefined (Some 1%float) dur) = false)
  /\
  (forall st instr p uuid dur vol delay,
     fst (webNotePlayerOn instr p uuid dur vol delay st) = Normal tt
     /\ nothing_sustained st
          (snd (webNotePlayerOn instr p uuid dur vol delay st)))
  /\
  (forall evs st,
     webNoteAudioBuffers (run evs st) ⊆ webNoteAudioBuffers st)
  /\
  (forall evs st,
     webNoteAudioBuffers st = ∅ -> webNoteAudioBuffers (run evs st) = ∅).
Proof.
  split; [|split; [|split]].
  - intros [t|]; reflexivity.
  - intros. apply webNotePlayerOn_nothing_sustained.
  - intros. apply run_voices.
  - intros evs st Hempty.
    pose proof (run_voices evs st) as Hsub. rewrite Hempty in Hsub.
    apply map_empty. intros i.
    destruct (webNoteAudioBuffers (run evs st) !! i) as [v|] eqn:Hi;
      [|reflexivity].
    apply (lookup_weaken _ _ _ _ Hi) in Hsub.
    rewrite lookup_empty in Hsub. discriminate.
Qed.

Lemma undefined_duration_never_reaches_the_body_witness :
  webNoteAudioBuffers (run sustain_then_stop st_guitar) = ∅.
Proof.
  apply (proj2 (proj2 (proj2 undefined_duration_never_reaches_the_body))
           sustain_then_stop st_guitar).
  reflexivity.
Defined.

(** C2, at a request the code can receive: a note-on with an identifier
    and no duration. The source is started for 1.3 s with a fade at one
    second, and the table of sounding notes is still empty; the body, run
    with the duration left undefined, would have started the source
    without a duration and registered it
    ([body_with_undefined_duration_registers]). *)
Theorem sustain_request_with_identifier :
  webNotePlayerOn "guitar" 60 (Some "a"%string) None None None st_guitar
  = (Normal tt,
     with_context
       (Some {| currentTime := 2; allocated := 2;
                calls := [createBufferSource 0%nat; createGain 1%nat;
                          set_buffer 0%nat (Some {| buffer_duration := 24 |});
                          set_loop 0%nat false;
                          connect 0%nat (to_node 1%nat);
                          connect 1%nat to_destination;
                          set_detune 0%nat 100;
                          set_gain 1%nat 0.6;
                          setTargetAtTime 1%nat 0 3 0.05;
                          start 0%nat 2 17 (Some 1.3)] |}%float)
       st_guitar)
  /\ webNoteAudioBuffers
       (snd (webNotePlayerOn "guitar" 60 (Some "a"%string) None None None
               st_guitar)) !! "a"%string = None.
Proof. split; reflexivity. Qed.

(** C3, at a request the code can receive: a note-on with neither an
    identifier nor a duration. Nothing is thrown or logged, and the source
    is started. *)
Theorem sustain_request_without_identifier :
  webNotePlayerOn "guitar" 60 None None None None st_guitar
  = (Normal tt,
     with_context
       (Some {| currentTime := 2; allocated := 2;
                calls := [createBufferSource 0%nat; createGain 1%nat;
                          set_buffer 0%nat (Some {| buffer_duration := 24 |});
                          set_loop 0%nat false;
                          connect 0%nat (to_node 1%nat);
                          connect 1%nat to_destination;
                          set_detune 0%nat 100;
                          set_gain 1%nat 0.6;
                          setTargetAtTime 1%nat 0 3 0.05;
                          start 0%nat 2 17 (Some 1.3)] |}%float)
       st_guitar)
  /\ console
       (snd (webNotePlayerOn "guitar" 60 None None None None st_guitar)) = [].
Proof. split; reflexivity. Qed.

(** ** More on the range resolver *)

(** Inside the bounds of the array the search never throws. *)
Lemma binarySearch_in_bounds l p low high :
  0 <= low -> high < Z.of_nat (length l) ->
  exists r, binarySearch l p low high = Normal r.
Proof.
  intros Hlow Hhigh.
  remember (Z.to_nat (high - low + 1)) as n eqn:Hn.
  revert low high Hn Hlow Hhigh.
  induction n as [n IH] using lt_wf_ind. intros low high Hn Hlow Hhigh.
  rewrite binarySearch_step.
  destruct (decide (low <= high)) as [Hle|]; [|eauto].
  pose proof (mid_between low high Hle) as Hmid.
  destruct (element_in_bounds l ((low + high) `div` 2)) as [c Hc]; [lia|].
  rewrite Hc.
  destruct (andb _ _); [eauto|].
  destruct (p <? midiNoteRangeStart c).
  - apply (IH (Z.to_nat ((low + high) `div` 2 - 1 - low + 1))); lia.
  - apply (IH (Z.to_nat (high - ((low + high) `div` 2 + 1) + 1))); lia.
Qed.

(** The four ways out of the resolver on a non-empty array. *)
Lemma getClosestSpriteNoteData_cases st data instr first t final p :
  audioSpriteInstrumentsData st = Some data ->
  data !! instr = Some (first :: t) ->
  last (first :: t) = Some final ->
  (exists found,
     found ∈ first :: t /\ in_range found p
     /\ getClosestSpriteNoteData instr p st = (Normal found, st))
  \/ (p < midiNoteRangeStart first
      /\ getClosestSpriteNoteData instr p st = (Normal (extend_down first), st))
  \/ (midiNoteRangeStart first <= p /\ midiNoteRangeEnd final < p
      /\ getClosestSpriteNoteData instr p st = (Normal (extend_up final), st))
  \/ (midiNoteRangeStart first <= p <= midiNoteRangeEnd final
      /\ getClosestSpriteNoteData instr p st
         = (Normal (closestLoop p t first (Z.abs (p - midiNoteNumber first))),
            with_console (console st ++ [console_warn_not_in_range p]) st)).
Proof.
  intros Hdata Hl Hfinal.
  rewrite (getClosestSpriteNoteData_known st data instr (first :: t) p Hdata Hl)
    by discriminate.
  unfold bind, lift, ret, log.
  destruct (binarySearch_in_bounds (first :: t) p 0
              (Z.of_nat (length (first :: t)) - 1)) as [r Hr]; [lia | lia |].
  rewrite Hr. destruct r as [found|].
  - left. exists found.
    destruct (binarySearch_sound _ _ _ _ _ Hr). auto.
  - right. rewrite element_first.
    destruct (Z.ltb_spec p (midiNoteRangeStart first)); [left; auto|].
    right. rewrite (element_last _ _ Hfinal).
    destruct (Z.ltb_spec (midiNoteRangeEnd final) p); [left; auto|].
    right. split; [lia|]. reflexivity.
Qed.

Lemma last_is_Some {A} (a : A) t : exists z, last (a :: t) = Some z.
Proof.
  destruct (last (a :: t)) as [z|] eqn:E; [eauto|].
  apply last_None in E. discriminate.
Qed.

Lemma last_elem_of {A} (l : list A) z : last l = Some z -> z ∈ l.
Proof.
  intros H. rewrite last_lookup in H. apply list_elem_of_lookup. eauto.
Qed.

Lemma same_segment_refl d : same_segment d d.
Proof. unfold same_segment. auto. Qed.

(** X1. For an instrument with at least one descriptor the resolver never
    throws, whatever the pitch and however the array is ordered; the
    descriptor it returns locates the same recording as some descriptor of
    the array (same sampled pitch, offset, duration and loop points), and
    the only state it may change is the console. *)
Theorem resolve_returns_a_catalog_segment st data instr l p :
  audioSpriteInstrumentsData st = Some data ->
  data !! instr = Some l ->
  l <> [] ->
  exists d st' d0,
    getClosestSpriteNoteData instr p st = (Normal d, st')
    /\ d0 ∈ l /\ same_segment d d0
    /\ (st' = st
        \/ st' = with_console (console st ++ [console_warn_not_in_range p]) st).
Proof.
  intros Hdata Hl Hne.
  destruct l as [|first t]; [congruence|].
  destruct (last_is_Some first t) as [final Hfinal].
  destruct (getClosestSpriteNoteData_cases st data instr first t final p
              Hdata Hl Hfinal)
    as [(found & Hin & _ & ->) | [(_ & ->) | [(_ & _ & ->) | (_ & ->)]]].
  - exists found, st, found. auto using same_segment_refl.
  - exists (extend_down first), st, first.
    split; [reflexivity|]. split; [left|].
    split; [repeat split | left; reflexivity].
  - exists (extend_up final), st, final.
    split; [reflexivity|]. split; [apply last_elem_of; exact Hfinal|].
    split; [repeat split | left; reflexivity].
  - destruct (closestLoop_nearest p t first) as [Hin _].
    eexists _, _, _. split; [reflexivity|]. split; [exact Hin|].
    split; [apply same_segment_refl | right; reflexivity].
Qed.

Lemma resolve_returns_a_catalog_segment_witness :
  exists d st' d0,
    getClosestSpriteNoteData "guitar" 200 st_short = (Normal d, st')
    /\ d0 ∈ short_of_the_ends /\ same_segment d d0
    /\ (st' = st_short
        \/ st' = with_console
                   (console st_short ++ [console_warn_not_in_range 200])
                   st_short).
Proof.
  apply (resolve_returns_a_catalog_segment st_short
           {[ "guitar"%string := short_of_the_ends ]} "guitar"
           short_of_the_ends 200);
    [reflexivity | reflexivity | discriminate].
Defined.

Lemma proper_ranges_elem l d :
  proper_ranges l = true -> d ∈ l ->
  midiNoteRangeStart d <= midiNoteRangeEnd d.
Proof.
  unfold proper_ranges. rewrite forallb_forall. intros H Hd.
  apply Z.leb_le. apply H. apply list_elem_of_In. exact Hd.
Qed.

(** X2. When every range of the array starts no later than it ends, a
    pitch from 0 to 127 either resolves, silently, to a descriptor whose
    (possibly widened) range contains it, or the warning is logged and the
    descriptor returned is one nearest by sampled pitch. The array need not
    be sorted for this. *)
Theorem resolve_contains_or_warns st data instr l p :
  audioSpriteInstrumentsData st = Some data ->
  data !! instr = Some l ->
  l <> [] ->
  proper_ranges l = true ->
  0 <= p <= 127 ->
  exists d,
    (getClosestSpriteNoteData instr p st = (Normal d, st) /\ in_range d p)
    \/ (getClosestSpriteNoteData instr p st
        = (Normal d,
           with_console (console st ++ [console_warn_not_in_range p]) st)
        /\ nearest l p d).
Proof.
  intros Hdata Hl Hne Hproper Hp.
  destruct l as [|first t]; [congruence|].
  destruct (last_is_Some first t) as [final Hfinal].
  destruct (getClosestSpriteNoteData_cases st data instr first t final p
              Hdata Hl Hfinal)
    as [(found & _ & Hin & ->) | [(Hlow & ->) | [(_ & Hhigh & ->) | (_ & ->)]]].
  - exists found. left. auto.
  - exists (extend_down first). left. split; [reflexivity|].
    pose proof (proper_ranges_elem _ first Hproper ltac:(left)).
    unfold in_range. cbn. lia.
  - exists (extend_up final). left. split; [reflexivity|].
    pose proof (proper_ranges_elem _ final Hproper (last_elem_of _ _ Hfinal)).
    unfold in_range. cbn. lia.
  - eexists. right. split; [reflexivity|].
    apply (closestLoop_nearest p t first).
Qed.

Lemma resolve_contains_or_warns_witness :
  exists d,
    (getClosestSpriteNoteData "guitar" 3 st_short = (Normal d, st_short)
     /\ in_range d 3)
    \/ (getClosestSpriteNoteData "guitar" 3 st_short
        = (Normal d,
           with_console (console st_short ++ [console_warn_not_in_range 3])
             st_short)
        /\ nearest short_of_the_ends 3 d).
Proof.
  apply (resolve_contains_or_warns st_short
           {[ "guitar"%string := short_of_the_ends ]} "guitar"
           short_of_the_ends 3);
    [reflexivity | reflexivity | discriminate | reflexivity | lia].
Defined.

(** The scan keeps the earlier of two equally near descriptors. *)
Lemma closestLoop_earliest p rest : forall closest,
  exists i,
    (closest :: rest) !! i
    = Some (closestLoop p rest closest (Z.abs (p - midiNoteNumber closest)))
    /\ forall j d', (j < i)%nat -> (closest :: rest) !! j = Some d' ->
         Z.abs (p - midiNoteNumber
                      (closestLoop p rest closest
                         (Z.abs (p - midiNoteNumber closest))))
         < Z.abs (p - midiNoteNumber d').
Proof.
  induction rest as [|c rest IH]; intros closest.
  - exists 0%nat. split; [reflexivity|]. intros j d' Hj. lia.
  - cbn [closestLoop].
    destruct (Z.ltb_spec (Z.abs (p - midiNoteNumber c))
                (Z.abs (p - midiNoteNumber closest))) as [Hlt|Hge].
    + destruct (IH c) as (i & Hi & Hbefore).
      destruct (closestLoop_nearest p rest c) as [_ Hmin].
      exists (S i). split; [exact Hi|].
      intros [|j] d' Hj Hd'.
      * injection Hd' as <-. specialize (Hmin c ltac:(left)). lia.
      * apply (Hbefore j d'); [lia | exact Hd'].
    + destruct (IH closest) as (i & Hi & Hbefore).
      destruct i as [|i].
      * exists 0%nat. split; [exact Hi|]. intros j d' Hj. lia.
      * exists (S (S i)). split; [exact Hi|].
        intros [|[|j]] d' Hj Hd'.
        -- apply (Hbefore 0%nat d'); [lia | exact Hd'].
        -- injection Hd' as <-.
           pose proof (Hbefore 0%nat closest ltac:(lia) eq_refl). lia.
        -- apply (Hbefore (S j) d'); [lia | exact Hd'].
Qed.

(** X3. Whenever the resolver logs its warning, the descriptor it returns
    is nearest to the pitch by sampled pitch, and every descriptor that
    comes before it in the array is strictly farther: of several equally
    near descriptors the earliest is returned. *)
Theorem fallback_returns_the_earliest_nearest st data instr l p d st' :
  audioSpriteInstrumentsData st = Some data ->
  data !! instr = Some l ->
  getClosestSpriteNoteData instr p st = (Normal d, st') ->
  console st' = console st ++ [console_warn_not_in_range p] ->
  nearest l p d
  /\ exists i,
       l !! i = Some d
       /\ forall j d', (j < i)%nat -> l !! j = Some d' ->
            Z.abs (p - midiNoteNumber d) < Z.abs (p - midiNoteNumber d').
Proof.
  intros Hdata Hl Hres Hwarn.
  assert (Hgrow : forall s : player,
            console s <> console s ++ [console_warn_not_in_range p]).
  { intros s H. apply (f_equal length) in H.
    rewrite length_app in H. cbn in H. lia. }
  destruct l as [|first t].
  { unfold getClosestSpriteNoteData, bind, gets in Hres.
    rewrite Hdata in Hres. cbn [mbind option_bind] in Hres.
    unfold instrument_data, get in Hres. rewrite Hl in Hres.
    discriminate. }
  destruct (last_is_Some first t) as [final Hfinal].
  destruct (getClosestSpriteNoteData_cases st data instr first t final p
              Hdata Hl Hfinal)
    as [(found & _ & _ & H) | [(_ & H) | [(_ & _ & H) | (_ & H)]]];
    rewrite H in Hres; injection Hres as <- <-;
    try (exfalso; exact (Hgrow st Hwarn)).
  split.
  - apply (closestLoop_nearest p t first).
  - apply (closestLoop_earliest p t first).
Qed.

Lemma fallback_returns_the_earliest_nearest_witness :
  nearest equally_near 15 (sprite 5 0 10 0 2 1.5 1.9)%float
  /\ exists i,
       equally_near !! i = Some (sprite 5 0 10 0 2 1.5 1.9)%float
       /\ forall j d', (j < i)%nat -> equally_near !! j = Some d' ->
            Z.abs (15 - midiNoteNumber (sprite 5 0 10 0 2 1.5 1.9)%float)
            < Z.abs (15 - midiNoteNumber d').
Proof.
  apply (fallback_returns_the_earliest_nearest st_equally_near
           {[ "guitar"%string := equally_near ]} "guitar" equally_near 15
           (sprite 5 0 10 0 2 1.5 1.9)%float
           (with_console [console_warn_not_in_range 15] st_equally_near));
    reflexivity.
Defined.

Lemma non_overlapping_pairs l :
  non_overlapping l = true ->
  forall i j di dj, (i < j)%nat -> l !! i = Some di -> l !! j = Some dj ->
    overlap di dj = false.
Proof.
  induction l as [|a t IH]; intros Hn i j di dj Hij Hi Hj.
  - discriminate.
  - destruct j as [|j]; [lia|]. cbn in Hj.
    destruct i as [|i].
    + injection Hi as <-. apply (non_overlapping_head a t); [exact Hn|].
      apply list_elem_of_lookup. eauto.
    + cbn in Hi.
      apply (IH (non_overlapping_tail _ _ Hn) i j); [lia | assumption..].
Qed.

(** Sorted, non-overlapping ranges that start no later than they end: each
    ends before every later one begins. *)
Lemma disjoint_ends_before l :
  sorted_by_rangeStart l = true ->
  non_overlapping l = true ->
  proper_ranges l = true ->
  forall i j di dj, (i < j)%nat -> l !! i = Some di -> l !! j = Some dj ->
    midiNoteRangeEnd di < midiNoteRangeStart dj.
Proof.
  intros Hs Hn Hp i j di dj Hij Hi Hj.
  pose proof (sorted_ascending l Hs i j di dj Hij Hi Hj) as Hasc.
  pose proof (non_overlapping_pairs l Hn i j di dj Hij Hi Hj) as Hov.
  assert (Hdj : dj ∈ l) by (apply list_elem_of_lookup; eauto).
  pose proof (proper_ranges_elem l dj Hp Hdj).
  unfold overlap in Hov. apply Z.leb_gt in Hov. lia.
Qed.

(** X4. On an array sorted by rangeStart whose ranges are pairwise
    non-overlapping and start no later than they end (gaps between them and
    at the two ends are allowed), a pitch that lies in the range of a
    descriptor resolves to exactly that descriptor, unchanged and without a
    warning. *)
Theorem resolve_finds_the_containing_descriptor st data instr l p k d :
  audioSpriteInstrumentsData st = Some data ->
  data !! instr = Some l ->
  sorted_by_rangeStart l = true ->
  non_overlapping l = true ->
  proper_ranges l = true ->
  l !! k = Some d ->
  in_range d p ->
  getClosestSpriteNoteData instr p st = (Normal d, st).
Proof.
  intros Hdata Hl Hs Hn Hp Hk Hin.
  assert (Hne : l <> []) by (intros ->; discriminate).
  pose proof (lookup_lt_Some _ _ _ Hk) as Hlt.
  pose proof (disjoint_ends_before l Hs Hn Hp) as Hends.
  destruct (binarySearch_complete l p (sorted_ascending l Hs) Hends
              0 (Z.of_nat (length l) - 1) k d) as [r Hr];
    [lia | lia | exact Hk | exact Hin | lia |].
  rewrite (getClosestSpriteNoteData_known st data instr l p Hdata Hl Hne).
  unfold bind, lift. rewrite Hr. cbn.
  destruct (binarySearch_sound _ _ _ _ _ Hr) as [Hrl Hrin].
  apply list_elem_of_lookup in Hrl as [k' Hk'].
  unfold in_range in Hin, Hrin.
  destruct (Nat.lt_trichotomy k' k) as [Hlt'|[->|Hgt]].
  - pose proof (Hends k' k r d Hlt' Hk' Hk). lia.
  - rewrite Hk in Hk'. injection Hk' as ->. reflexivity.
  - pose proof (Hends k k' d r Hgt Hk Hk'). lia.
Qed.

Lemma resolve_finds_the_containing_descriptor_witness :
  getClosestSpriteNoteData "guitar" 100 st_gap
  = (Normal (sprite 24 20 127 3 2 4.5 4.9)%float, st_gap).
Proof.
  apply (resolve_finds_the_containing_descriptor st_gap
           {[ "guitar"%string := with_a_gap ]} "guitar" with_a_gap 100 1%nat);
    [reflexivity | reflexivity | reflexivity | reflexivity | reflexivity
    | reflexivity | unfold in_range; cbn; lia].
Defined.

(** ** More on the scheduler *)

(** The three ways through webNotePlayerOn: no context; the resolver
    throws; the note is scheduled. *)
Lemma webNotePlayerOn_paths st instr p uuid dur vol delay :
  (webNoteAudioContext st = None
   /\ webNotePlayerOn instr p uuid dur vol delay st
      = (Normal tt,
         with_console
           (console st ++ [console_error (Error context_not_initialized)])
           st))
  \/
  (exists ctx e st1,
     webNoteAudioContext st = Some ctx
     /\ getClosestSpriteNoteData instr p st = (Throw e, st1)
     /\ webNotePlayerOn instr p uuid dur vol delay st
        = (Normal tt,
           with_console (console st1 ++ [console_error e])
             (with_context
                (Some {| currentTime := currentTime ctx;
                         allocated := S (S (allocated ctx));
                         calls := calls ctx
                                  ++ [createBufferSource (allocated ctx);
                                      createGain (S (allocated ctx))] |})
                st1)))
  \/
  (exists ctx d st1 looping t',
     webNoteAudioContext st = Some ctx
     /\ getClosestSpriteNoteData instr p st = (Normal d, st1)
     /\ (looping = [set_loop (allocated ctx) false]
         \/ exists ls le,
              looping = [set_loopStart (allocated ctx) ls;
                         set_loopEnd (allocated ctx) le;
                         set_loop (allocated ctx) true])
     /\ webNotePlayerOn instr p uuid dur vol delay st
        = (Normal tt,
           with_context
             (Some {| currentTime := currentTime ctx;
                      allocated := S (S (allocated ctx));
                      calls :=
                        calls ctx
                        ++ [createBufferSource (allocated ctx);
                            createGain (S (allocated ctx));
                            set_buffer (allocated ctx) (audioSpriteBuffer st)]
                        ++ looping
                        ++ [connect (allocated ctx)
                              (to_node (S (allocated ctx)));
                            connect (S (allocated ctx)) to_destination;
                            set_detune (allocated ctx)
                              ((p - midiNoteNumber d) * 100);
                            set_gain (S (allocated ctx))
                              (default_parameter 0.6%float vol);
                            setTargetAtTime (S (allocated ctx)) 0%float
                              (currentTime ctx
                               + default_parameter 0%float delay + t')%float
                              GAIN_TIME_CONSTANT;
                            start (allocated ctx)
                              (currentTime ctx
                               + default_parameter 0%float delay)%float
                              (noteStart d)
                              (Some (t' + EXTRA_NOTE_DURATION)%float)] |})
             st1)).
Proof.
  unfold webNotePlayerOn. rewrite default_parameter_is_defined.
  destruct (webNoteAudioContext st) as [ctx|] eqn:Hctx.
  2: { left. split; [reflexivity|].
       apply webNotePlayerOn_body_uninitialised. exact Hctx. }
  right.
  destruct (getClosestSpriteNoteData instr p st) as [[d|e] st1] eqn:Hres.
  - right. 
    destruct (webNotePlayerOn_body_finite st ctx instr p
                (default_parameter_or_undefined None uuid)
                (default_parameter 1%float dur)
                (default_parameter 0.6%float vol)
                (default_parameter 0%float delay) d st1 Hctx Hres)
      as (looping & t' & Hcase & Hrun).
    exists ctx, d, st1, looping, t'.
    split; [reflexivity|]. split; [reflexivity|]. split; [|exact Hrun].
    destruct (PrimFloat.ltb _ _), (loopStart d), (loopEnd d);
      destruct Hcase as [-> _]; eauto.
  - left. exists ctx, e, st1.
    split; [reflexivity|]. split; [reflexivity|].
    apply (webNotePlayerOn_body_unresolved st ctx _ _ _ _ _ _ e st1 Hctx Hres).
Qed.

(** X5. A note whose duration (given, or the default of one second) is
    not greater than the natural duration of the resolved descriptor is
    never looped, even when the descriptor defines loop points: the source
    is set not to loop, the fade begins at start + the requested duration
    and the source is started for the requested duration + 0.3 s. *)
Theorem note_within_its_segment st ctx instr p uuid dur vol delay d st1 :
  webNoteAudioContext st = Some ctx ->
  getClosestSpriteNoteData instr p st = (Normal d, st1) ->
  PrimFloat.ltb (noteDuration d) (default_parameter 1%float dur) = false ->
  let t := default_parameter 1%float dur in
  let n := allocated ctx in
  let g := S (allocated ctx) in
  let startTime :=
    (currentTime ctx + default_parameter 0%float delay)%float in
  webNotePlayerOn instr p uuid dur vol delay st
  = (Normal tt,
     with_context
       (Some {| currentTime := currentTime ctx;
                allocated := S (S (allocated ctx));
                calls :=
                  calls ctx
                  ++ [createBufferSource n; createGain g;
                      set_buffer n (audioSpriteBuffer st);
                      set_loop n false;
                      connect n (to_node g); connect g to_destination;
                      set_detune n ((p - midiNoteNumber d) * 100);
                      set_gain g (default_parameter 0.6%float vol);
                      setTargetAtTime g 0%float (startTime + t)%float
                        0.05%float;
                      start n startTime (noteStart d)
                        (Some (t + 0.3)%float)] |})
       st1).
Proof.
  intros Hctx Hres Hshort t n g startTime.
  unfold webNotePlayerOn. rewrite default_parameter_is_defined.
  destruct (webNotePlayerOn_body_finite st ctx instr p
              (default_parameter_or_undefined None uuid) t
              (default_parameter 0.6%float vol)
              (default_parameter 0%float delay) d st1 Hctx Hres)
    as (looping & t' & Hcase & Hrun).
  fold t in Hshort. rewrite Hshort in Hcase. destruct Hcase as [-> ->].
  fold t. rewrite Hrun. reflexivity.
Qed.

Lemma note_within_its_segment_witness :
  webNotePlayerOn "guitar" 50 None (Some 0.5%float) None (Some 1%float)
    st_two_instruments
  = (Normal tt,
     with_context
       (Some {| currentTime := 5; allocated := 2;
                calls := [createBufferSource 0%nat; createGain 1%nat;
                          set_buffer 0%nat (Some {| buffer_duration := 24 |});
                          set_loop 0%nat false;
                          connect 0%nat (to_node 1%nat);
                          connect 1%nat to_destination;
                          set_detune 0%nat 0;
                          set_gain 1%nat 0.6;
                          setTargetAtTime 1%nat 0 6.5 0.05;
                          start 0%nat 6 9 (Some 0.8)] |}%float)
       st_two_instruments).
Proof.
  apply (note_within_its_segment st_two_instruments
           {| currentTime := 5; allocated := 0; calls := [] |}
           "guitar" 50 None (Some 0.5%float) None (Some 1%float)
           (sprite 50 49 53 9 4.537324263038549
              13.508707482993199 13.535963718820861)
           st_two_instruments);
    reflexivity.
Defined.

(** X6. A note-on that the resolver fails, on an initialised player: the
    call returns normally, the error is logged on the console, a source and
    a gain node have been created but nothing is connected or started, and
    the table of sounding notes is as before. The error logged is the
    TypeError that names the instrument when the catalog has no entry of
    that name and the name is not one every object inherits; the Error for
    an empty array when the entry is an empty array; and, for a name the
    catalog does not own but every object inherits, that same Error when
    the inherited function has length 0 and the TypeError of reading a
    property of undefined otherwise. *)
Theorem note_on_unknown_instrument st ctx instr p uuid dur vol delay :
  webNoteAudioContext st = Some ctx ->
  let created :=
    with_context
      (Some {| currentTime := currentTime ctx;
               allocated := S (S (allocated ctx));
               calls := calls ctx
                        ++ [createBufferSource (allocated ctx);
                            createGain (S (allocated ctx))] |}) st in
  (audioSpriteInstrumentsData st = None
   \/ (exists obj, audioSpriteInstrumentsData st = Some obj
                   /\ obj !! instr = None
                   /\ Object_prototype !! instr = None) ->
   webNotePlayerOn instr p uuid dur vol delay st
   = (Normal tt,
      with_console
        (console st ++ [console_error (TypeError (no_such_instrument instr))])
        created))
  /\
  (forall obj, audioSpriteInstrumentsData st = Some obj ->
     obj !! instr = Some [] ->
     webNotePlayerOn instr p uuid dur vol delay st
     = (Normal tt,
        with_console
          (console st
           ++ [console_error (Error (empty_instrument_data instr))])
          created))
  /\
  (forall obj len, audioSpriteInstrumentsData st = Some obj ->
     obj !! instr = None ->
     Object_prototype !! instr = Some len ->
     webNotePlayerOn instr p uuid dur vol delay st
     = (Normal tt,
        with_console
          (console st
           ++ [console_error
                 (if is_zero len
                  then Error (empty_instrument_data instr)
                  else TypeError undefined_has_no_properties)])
          created)).
Proof.
  intros Hctx created.
  assert (Hthrow : forall e,
            getClosestSpriteNoteData instr p st = (Throw e, st) ->
            webNotePlayerOn instr p uuid dur vol delay st
            = (Normal tt, with_console (console st ++ [console_error e])
                            created)).
  { intros e He. unfold webNotePlayerOn.
    apply (webNotePlayerOn_body_unresolved st ctx _ _ _ _ _ _ e st Hctx He). }
  split; [|split].
  - intros H. apply Hthrow. apply getClosestSpriteNoteData_absent. exact H.
  - intros obj Hdata Hown. apply Hthrow.
    apply (getClosestSpriteNoteData_empty st obj); assumption.
  - intros obj len Hdata Hown Hproto. apply Hthrow.
    apply (getClosestSpriteNoteData_inherited st obj); assumption.
Qed.

Lemma note_on_unknown_instrument_witness :
  webNotePlayerOn "piano" 60 None None None None st_guitar
  = (Normal tt,
     with_console [console_error (TypeError (no_such_instrument "piano"))]
       (with_context
          (Some {| currentTime := 2; allocated := 2;
                   calls := [createBufferSource 0%nat; createGain 1%nat] |}
                %float)
          st_guitar))
  /\
  webNotePlayerOn "flute" 60 None None None None st_empty_instrument
  = (Normal tt,
     with_console [console_error (Error (empty_instrument_data "flute"))]
       (with_context
          (Some {| currentTime := 2; allocated := 2;
                   calls := [createBufferSource 0%nat; createGain 1%nat] |}
                %float)
          st_empty_instrument))
  /\
  webNotePlayerOn "constructor" 60 None None None None st_guitar
  = (Normal tt,
     with_console [console_error (TypeError undefined_has_no_properties)]
       (with_context
          (Some {| currentTime := 2; allocated := 2;
                   calls := [createBufferSource 0%nat; createGain 1%nat] |}
                %float)
          st_guitar)).
Proof.
  split; [|split].
  - apply (proj1 (note_on_unknown_instrument st_guitar
                    {| currentTime := 2; allocated := 0; calls := [] |}
                    "piano" 60 None None None None eq_refl)).
    right. exists nylonGuitarAudioSpriteData. repeat split; reflexivity.
  - apply (proj1 (proj2 (note_on_unknown_instrument st_empty_instrument
                           {| currentTime := 2; allocated := 0; calls := [] |}
                           "flute" 60 None None None None eq_refl))
             {[ "guitar"%string := guitar; "flute"%string := [] ]});
      reflexivity.
  - apply (proj2 (proj2 (note_on_unknown_instrument st_guitar
                           {| currentTime := 2; allocated := 0; calls := [] |}
                           "constructor" 60 None None None None eq_refl))
             nylonGuitarAudioSpriteData (Some 1)); reflexivity.
Defined.

(** X7. A stop request touches nothing but its own entry: every other
    identifier keeps its voice, the catalog and the decoded sprite are as
    before, and the context keeps its clock and hands out no node; on an
    initialised player the identifier is absent from the table afterwards,
    whether or not it was there. The request throws only when the
    identifier is not in the table but is a name every object inherits, and
    then the whole state is as before; otherwise it returns normally. *)
Theorem stopping_touches_only_its_entry st uuid :
  (forall other, other <> uuid ->
     webNoteAudioBuffers (snd (webNotePlayerOff uuid st)) !! other
     = webNoteAudioBuffers st !! other)
  /\ audioSpriteInstrumentsData (snd (webNotePlayerOff uuid st))
     = audioSpriteInstrumentsData st
  /\ audioSpriteBuffer (snd (webNotePlayerOff uuid st)) = audioSpriteBuffer st
  /\ currentTime <$> webNoteAudioContext (snd (webNotePlayerOff uuid st))
     = currentTime <$> webNoteAudioContext st
  /\ allocated <$> webNoteAudioContext (snd (webNotePlayerOff uuid st))
     = allocated <$> webNoteAudioContext st
  /\ (is_Some (webNoteAudioContext st) ->
      webNoteAudioBuffers (snd (webNotePlayerOff uuid st)) !! uuid = None)
  /\ (fst (webNotePlayerOff uuid st) = Normal tt
      \/ (is_Some (webNoteAudioContext st)
          /\ webNoteAudioBuffers st !! uuid = None
          /\ is_Some (Object_prototype !! uuid)
          /\ webNotePlayerOff uuid st
             = (Throw (TypeError undefined_has_no_properties), st)))
  /\ (webNoteAudioContext st = None
      \/ is_Some (webNoteAudioBuffers st !! uuid)
      \/ Object_prototype !! uuid = None ->
      fst (webNotePlayerOff uuid st) = Normal tt).
Proof.
  destruct (webNotePlayerOff_paths st uuid)
    as [(Hctx & ->)
       | [(ctx & Hctx & Hv & Hproto & ->)
         | [(ctx & v & Hctx & Hv & ->)
           | (ctx & len & Hctx & Hv & Hproto & Hrun)]]].
  - cbn. rewrite Hctx. repeat apply conj; try reflexivity; auto.
    intros [c Hc]. discriminate.
  - cbn. rewrite Hctx. repeat apply conj; try reflexivity; auto.
  - cbn. rewrite Hctx. repeat apply conj; try reflexivity; auto.
    + intros other Hother. apply lookup_delete_ne. congruence.
    + intros _. apply lookup_delete_eq.
  - rewrite Hrun. cbn. repeat apply conj; try reflexivity; auto.
    intros [Hnone | [[v Hsome] | Hnot]]; congruence.
Qed.

Lemma stopping_touches_only_its_entry_witness :
  webNoteAudioBuffers (snd (webNotePlayerOff "a" st_sounding)) !! "a"%string
  = None
  /\ fst (webNotePlayerOff "a" st_sounding) = Normal tt.
Proof.
  pose proof (stopping_touches_only_its_entry st_sounding "a")
    as (_ & _ & _ & _ & _ & Hgone & _ & Hnormal).
  split.
  - apply Hgone. eexists. reflexivity.
  - apply Hnormal. right. left. eexists. reflexivity.
Defined.

(** What one event leaves alone, and what it can only add to. *)
Lemma handle_frame ev st :
  audioSpriteInstrumentsData (handle ev st) = audioSpriteInstrumentsData st
  /\ audioSpriteBuffer (handle ev st) = audioSpriteBuffer st
  /\ console st `prefix_of` console (handle ev st)
  /\ match webNoteAudioContext st, webNoteAudioContext (handle ev st) with
     | Some ctx, Some ctx' =>
         (allocated ctx <= allocated ctx')%nat
         /\ calls ctx `prefix_of` calls ctx'
     | None, None => True
     | _, _ => False
     end.
Proof.
  destruct ev as [detail | uuid | t]; cbn [handle].
  - destruct (webNotePlayerOn_paths st
                (detail_instrumentAudio detail) (detail_midiNoteNumber detail)
                (detail_uuid detail) (detail_noteDuration detail)
                (detail_noteVolume detail) (detail_noteDelay detail))
      as [(Hctx & ->)
         | [(ctx & e & st1 & Hctx & Hres & ->)
           | (ctx & d & st1 & looping & t' & Hctx & Hres & _ & ->)]];
      try (destruct (getClosestSpriteNoteData_frame _ _ _ _ _ Hres)
             as (logged & _ & ->));
      cbn; rewrite Hctx; repeat split;
      try (apply prefix_app_r; reflexivity);
      try (rewrite <- app_assoc; apply prefix_app_r; reflexivity); lia.
  - destruct (webNotePlayerOff_paths st uuid)
      as [(Hctx & ->)
         | [(ctx & Hctx & _ & _ & ->)
           | [(ctx & v & Hctx & _ & ->) | (ctx & len & Hctx & _ & _ & ->)]]];
      cbn; rewrite Hctx; repeat split;
      try (apply prefix_app_r; reflexivity); try reflexivity; try lia.
  - destruct st as [[ctx|] data sprite voices logs]; cbn; repeat split;
      reflexivity.
Qed.

Lemma run_frame evs : forall st,
  audioSpriteInstrumentsData (run evs st) = audioSpriteInstrumentsData st
  /\ audioSpriteBuffer (run evs st) = audioSpriteBuffer st
  /\ console st `prefix_of` console (run evs st)
  /\ match webNoteAudioContext st, webNoteAudioContext (run evs st) with
     | Some ctx, Some ctx' =>
         (allocated ctx <= allocated ctx')%nat
         /\ calls ctx `prefix_of` calls ctx'
     | None, None => True
     | _, _ => False
     end.
Proof.
  induction evs as [|ev evs IH]; intros st.
  - cbn. repeat split; try reflexivity.
    destruct (webNoteAudioContext st); [split; reflexivity | exact I].
  - change (run (ev :: evs) st) with (run evs (handle ev st)).
    destruct (IH (handle ev st)) as (Hd & Hb & Hc & Hx).
    destruct (handle_frame ev st) as (Hd' & Hb' & Hc' & Hx').
    split; [congruence|]. split; [congruence|].
    split; [etransitivity; eassumption|].
    destruct (webNoteAudioContext st) as [c0|],
             (webNoteAudioContext (handle ev st)) as [c1|],
             (webNoteAudioContext (run evs (handle ev st))) as [c2|];
      try contradiction; try exact I.
    destruct Hx as [Ha Hp], Hx' as [Ha' Hp'].
    split; [lia | etransitivity; eassumption].
Qed.

(** X8. Along every sequence of note-on events, note-off events and clock
    movements the catalog and the decoded sprite are never modified, a
    context is never dropped or installed, the console and the record of
    audio calls only grow at the end, and the context never takes back a
    node it has handed out. *)
Theorem events_only_add evs st :
  audioSpriteInstrumentsData (run evs st) = audioSpriteInstrumentsData st
  /\ audioSpriteBuffer (run evs st) = audioSpriteBuffer st
  /\ console st `prefix_of` console (run evs st)
  /\ match webNoteAudioContext st, webNoteAudioContext (run evs st) with
     | Some ctx, Some ctx' =>
         (allocated ctx <= allocated ctx')%nat
         /\ calls ctx `prefix_of` calls ctx'
     | None, None => True
     | _, _ => False
     end.
Proof. apply run_frame. Qed.

(** X9. Playback does not disturb resolution: after any sequence of
    events a pitch resolves to what it resolved to before (the same
    descriptor, or the same error). *)
Theorem resolution_is_stable_under_events evs st instr p :
  fst (getClosestSpriteNoteData instr p (run evs st))
  = fst (getClosestSpriteNoteData instr p st).
Proof.
  destruct (run_frame evs st) as (Hdata & _).
  destruct (getClosestSpriteNoteData_uniform
              (audioSpriteInstrumentsData st) instr p)
    as (r & logged & _ & Hu).
  rewrite (Hu st eq_refl), (Hu (run evs st) Hdata). reflexivity.
Qed.

Lemma times_started_app n l1 l2 :
  times_started n (l1 ++ l2) = (times_started n l1 + times_started n l2)%nat.
Proof. unfold times_started. rewrite List.filter_app, length_app. reflexivity. Qed.

Lemma handle_started_once ev st ctx ctx' :
  webNoteAudioContext st = Some ctx ->
  webNoteAudioContext (handle ev st) = Some ctx' ->
  started_once ctx -> started_once ctx'.
Proof.
  intros Hctx Hctx' [Hfresh Honce].
  destruct ev as [detail | uuid | t]; cbn [handle] in Hctx'.
  - destruct (webNotePlayerOn_paths st
                (detail_instrumentAudio detail) (detail_midiNoteNumber detail)
                (detail_uuid detail) (detail_noteDuration detail)
                (detail_noteVolume detail) (detail_noteDelay detail))
      as [(Hnone & _)
         | [(c & e & st1 & Hc & _ & Hrun)
           | (c & d & st1 & looping & t' & Hc & _ & Hlooping & Hrun)]].
    + congruence.
    + rewrite Hrun in Hctx'. cbn in Hctx'. injection Hctx' as <-.
      assert (c = ctx) as -> by congruence.
      split; cbn [calls allocated]; intros n; try intros Hn;
        rewrite times_started_app; cbn.
      * rewrite Hfresh by lia. reflexivity.
      * specialize (Honce n). lia.
    + rewrite Hrun in Hctx'. cbn in Hctx'. injection Hctx' as <-.
      assert (c = ctx) as -> by congruence.
      assert (Hadded : forall n,
                times_started n
                  ([createBufferSource (allocated ctx);
                    createGain (S (allocated ctx));
                    set_buffer (allocated ctx) (audioSpriteBuffer st)]
                   ++ looping
                   ++ [connect (allocated ctx) (to_node (S (allocated ctx)));
                       connect (S (allocated ctx)) to_destination;
                       set_detune (allocated ctx)
                         ((detail_midiNoteNumber detail - midiNoteNumber d)
                          * 100);
                       set_gain (S (allocated ctx))
                         (default_parameter 0.6%float
                            (detail_noteVolume detail));
                       setTargetAtTime (S (allocated ctx)) 0%float
                         (currentTime ctx
                          + default_parameter 0%float (detail_noteDelay detail)
                          + t')%float GAIN_TIME_CONSTANT;
                       start (allocated ctx)
                         (currentTime ctx
                          + default_parameter 0%float
                              (detail_noteDelay detail))%float
                         (noteStart d)
                         (Some (t' + EXTRA_NOTE_DURATION)%float)])
                = if Nat.eqb (allocated ctx) n then 1%nat else 0%nat).
      { intros n. destruct Hlooping as [-> | (ls & le & ->)];
          unfold times_started; cbn;
          destruct (Nat.eqb (allocated ctx) n); reflexivity. }
      split; cbn [calls allocated]; intros n; try intros Hn;
        rewrite times_started_app, Hadded.
      * rewrite Hfresh by lia.
        destruct (Nat.eqb_spec (allocated ctx) n); [lia | reflexivity].
      * destruct (Nat.eqb_spec (allocated ctx) n) as [<-|Hne].
        -- rewrite Hfresh by lia. lia.
        -- specialize (Honce n). lia.
  - destruct (webNotePlayerOff_paths st uuid)
      as [(Hnone & _)
         | [(c & Hc & _ & _ & Hrun)
           | [(c & v & Hc & _ & Hrun) | (c & len & Hc & _ & _ & Hrun)]]].
    + congruence.
    + rewrite Hrun in Hctx'. cbn in Hctx'.
      assert (ctx' = ctx) as -> by congruence. split; assumption.
    + rewrite Hrun in Hctx'. cbn in Hctx'. injection Hctx' as <-.
      assert (c = ctx) as -> by congruence.
      split; cbn [calls allocated]; intros n; try intros Hn;
        rewrite times_started_app; cbn.
      * rewrite Hfresh by lia. reflexivity.
      * specialize (Honce n). lia.
    + rewrite Hrun in Hctx'. cbn in Hctx'.
      assert (ctx' = ctx) as -> by congruence. split; assumption.
  - unfold advance in Hctx'. cbn in Hctx'. rewrite Hctx in Hctx'.
    cbn in Hctx'. injection Hctx' as <-. split; assumption.
Qed.

(** X10. No source node is ever started twice. If, in the record of the
    context, only nodes already handed out have been started and none more
    than once (as in a context without any call), the same holds after any
    sequence of note-on events, note-off events and clock movements. *)
Theorem no_source_is_started_twice evs : forall st ctx ctx',
  webNoteAudioContext st = Some ctx ->
  started_once ctx ->
  webNoteAudioContext (run evs st) = Some ctx' ->
  started_once ctx'.
Proof.
  induction evs as [|ev evs IH]; intros st ctx ctx' Hctx Honce Hctx'.
  - cbn in Hctx'. congruence.
  - change (run (ev :: evs) st) with (run evs (handle ev st)) in Hctx'.
    destruct (handle_frame ev st) as (_ & _ & _ & Hx).
    rewrite Hctx in Hx.
    destruct (webNoteAudioContext (handle ev st)) as [c1|] eqn:Hc1;
      [|contradiction].
    apply (IH (handle ev st) c1 ctx' Hc1); [|exact Hctx'].
    apply (handle_started_once ev st ctx c1 Hctx Hc1 Honce).
Qed.

Lemma no_source_is_started_twice_witness :
  exists ctx',
    webNoteAudioContext (run sustain_then_stop st_guitar) = Some ctx'
    /\ started_once ctx'.
Proof.
  eexists. split; [vm_compute; reflexivity|].
  apply (no_source_is_started_twice sustain_then_stop st_guitar
           {| currentTime := 2; allocated := 0; calls := [] |});
    [reflexivity | | vm_compute; reflexivity].
  split; intros; reflexivity || (cbn; lia).
Defined.

(** ** The page: initialisation, loading and listeners *)

Lemma guard_free_app logs added :
  guard_free logs -> guard_free added -> guard_free (logs ++ added).
Proof.
  intros [H1 H2] [H3 H4]. split; intros H; apply elem_of_app in H; tauto.
Qed.

Lemma guard_free_resolver_log p logged :
  logged = [] \/ logged = [console_warn_not_in_range p] -> guard_free logged.
Proof.
  intros [-> | ->]; split; intros H.
  - inversion H.
  - inversion H.
  - apply list_elem_of_singleton in H. discriminate.
  - apply list_elem_of_singleton in H. discriminate.
Qed.

(** On an initialised player a handler keeps the context and logs neither
    guard message. *)
Lemma handle_initialised ev st :
  is_Some (webNoteAudioContext st) ->
  guard_free (console st) ->
  is_Some (webNoteAudioContext (handle ev st))
  /\ guard_free (console (handle ev st)).
Proof.
  intros [ctx Hctx] Hfree.
  destruct ev as [detail | uuid | t]; cbn [handle].
  - destruct (webNotePlayerOn_paths st
                (detail_instrumentAudio detail) (detail_midiNoteNumber detail)
                (detail_uuid detail) (detail_noteDuration detail)
                (detail_noteVolume detail) (detail_noteDelay detail))
      as [(Hnone & _)
         | [(c & e & st1 & Hc & Hres & ->)
           | (c & d & st1 & looping & t' & Hc & Hres & _ & ->)]].
    + congruence.
    + destruct (getClosestSpriteNoteData_frame _ _ _ _ _ Hres)
        as (logged & Hlogged & ->).
      cbn. split; [eauto|].
      apply guard_free_app.
      * apply guard_free_app;
          [exact Hfree | exact (guard_free_resolver_log _ _ Hlogged)].
      * destruct (getClosestSpriteNoteData_throws_one_of _ _ _ _ _ Hres)
          as [-> | [-> | ->]];
          split; intros H; apply list_elem_of_singleton in H; discriminate.
    + destruct (getClosestSpriteNoteData_frame _ _ _ _ _ Hres)
        as (logged & Hlogged & ->).
      cbn. split; [eauto|].
      apply guard_free_app;
        [exact Hfree | exact (guard_free_resolver_log _ _ Hlogged)].
  - destruct (webNotePlayerOff_paths st uuid)
      as [(Hnone & _)
         | [(c & Hc & _ & _ & ->)
           | [(c & v & Hc & _ & ->) | (c & len & Hc & _ & _ & ->)]]].
    + congruence.
    + cbn. split; [eauto|].
      apply guard_free_app; [exact Hfree|].
      split; intros H; apply list_elem_of_singleton in H; discriminate.
    + cbn. split; [eauto | exact Hfree].
    + cbn. split; [eauto | exact Hfree].
  - unfold advance. cbn. rewrite Hctx. cbn. split; [eauto | exact Hfree].
Qed.

Lemma iter_handle_initialised ev k : forall st,
  is_Some (webNoteAudioContext st) ->
  guard_free (console st) ->
  is_Some (webNoteAudioContext (Nat.iter k (handle ev) st))
  /\ guard_free (console (Nat.iter k (handle ev) st))
  /\ audioSpriteInstrumentsData (Nat.iter k (handle ev) st)
     = audioSpriteInstrumentsData st
  /\ audioSpriteBuffer (Nat.iter k (handle ev) st) = audioSpriteBuffer st.
Proof.
  induction k as [|k IH]; intros st Hctx Hfree.
  - cbn. auto.
  - cbn [Nat.iter nat_rect].
    destruct (IH st Hctx Hfree) as (Hc & Hf & Hd & Hb).
    destruct (handle_initialised ev _ Hc Hf) as [Hc' Hf'].
    destruct (handle_frame ev (Nat.iter k (handle ev) st)) as (Hd' & Hb' & _).
    unfold Nat.iter in *.
    split; [exact Hc'|]. split; [exact Hf'|]. split; congruence.
Qed.

Lemma dispatch_invariant target ev pg :
  page_invariant pg -> page_invariant (dispatch target ev pg).
Proof.
  intros (Ha & Hb & Hc & Hd & He).
  destruct (listeners pg) as [|t ts] eqn:Hl.
  - unfold dispatch. rewrite Hl. cbn.
    unfold page_invariant. cbn. auto.
  - destruct (Hd ltac:(discriminate)) as (Hctx & Hdata & Hsprite).
    destruct (iter_handle_initialised ev
                (length (List.filter (Nat.eqb target) (t :: ts)))
                (bindings pg) Hctx He) as (Hc' & Hf' & Hd' & Hb').
    unfold dispatch, page_invariant. cbn. rewrite Hl.
    rewrite Hd', Hb'.
    split; [exact Ha|]. split; [auto|]. split; [exact Hc|].
    split; [auto | exact Hf'].
Qed.

Lemma elem_of_delete_list {A} (l : list A) i x : x ∈ delete i l -> x ∈ l.
Proof. apply list_elem_of_delete_inv. Qed.

Lemma occur_invariant o pg : page_invariant pg -> page_invariant (occur o pg).
Proof.
  intros Hinv.
  destruct o as [url data target ctx | i result | i | target detail
                | target uuid | t]; cbn [occur].
  - destruct Hinv as (Ha & Hb & Hc & Hd & He).
    unfold initWebNotePlayer.
    destruct (String.eqb url EmptyString).
    { unfold page_invariant. cbn. auto. }
    destruct data as [data|].
    2: { unfold page_invariant. cbn. auto. }
    unfold loadAudioSpriteFromUrl_begins, page_invariant. cbn.
    split; [exact Ha|]. split; [eauto|]. split.
    + intros ld Hld Hful. apply elem_of_app in Hld as [Hld|Hld].
      * exact (Hc ld Hld Hful).
      * apply list_elem_of_singleton in Hld. subst ld. discriminate.
    + split; [|exact He]. intros Hne. destruct (Hd Hne) as (_ & ? & ?). eauto.
  - destruct Hinv as (Ha & Hb & Hc & Hd & He).
    unfold loadAudioSpriteFromUrl_settles.
    destruct (loads pg !! i) as [ld|] eqn:Hi;
      [|unfold page_invariant; auto].
    destruct (fulfilled ld); [unfold page_invariant; auto|].
    assert (Hne : loads pg <> []) by (intros H; rewrite H in Hi; discriminate).
    destruct result as [b|]; unfold page_invariant; cbn.
    + split; [exact Ha|]. split; [auto|]. split; [eauto|].
      split; [|exact He]. intros Hl. destruct (Hd Hl) as (? & ? & _). eauto.
    + split; [exact Ha|]. split; [auto|]. split; [|auto].
      intros ld' Hld'. apply Hc. exact (elem_of_delete_list _ _ _ Hld').
  - destruct Hinv as (Ha & Hb & Hc & Hd & He).
    unfold then_callback.
    destruct (loads pg !! i) as [ld|] eqn:Hi;
      [|unfold page_invariant; auto].
    destruct (fulfilled ld) eqn:Hful; [|unfold page_invariant; auto].
    assert (Hne : loads pg <> []) by (intros H; rewrite H in Hi; discriminate).
    assert (Hld : ld ∈ loads pg) by (apply list_elem_of_lookup; eauto).
    unfold page_invariant. cbn.
    split; [congruence|]. split; [auto|]. split.
    + intros ld' Hld'. apply Hc. exact (elem_of_delete_list _ _ _ Hld').
    + split; [|exact He]. intros _. eauto.
  - apply dispatch_invariant. exact Hinv.
  - apply dispatch_invariant. exact Hinv.
  - destruct Hinv as (Ha & Hb & Hc & Hd & He).
    unfold page_invariant, advance. cbn.
    split; [exact Ha|]. split.
    { intros Hne. destruct (Hb Hne) as [c ->]. cbn. eauto. }
    split; [exact Hc|]. split; [|exact He].
    intros Hne. destruct (Hd Hne) as ([c ->] & ? & ?). cbn. eauto.
Qed.

Lemma history_invariant os : forall pg,
  page_invariant pg -> page_invariant (history os pg).
Proof.
  induction os as [|o os IH]; intros pg Hinv; [exact Hinv|].
  apply (IH (occur o pg)). apply occur_invariant. exact Hinv.
Qed.

Lemma module_loaded_invariant : page_invariant module_loaded.
Proof.
  unfold page_invariant, guard_free. cbn.
  split; [reflexivity|]. split; [congruence|].
  split; [intros ld Hld; inversion Hld|]. split; [congruence|].
  split; intros Hin; inversion Hin.
Qed.

Lemma filter_absent target (l : list EventTarget) :
  target ∉ l -> List.filter (Nat.eqb target) l = [].
Proof.
  induction l as [|t l IH]; intros Hnot; [reflexivity|].
  cbn. destruct (Nat.eqb_spec target t) as [->|Hne].
  - exfalso. apply Hnot. left.
  - apply IH. intros H. apply Hnot. right. exact H.
Qed.

(** X11. However initWebNotePlayer is called (with an audio context, or
    without one so that a new one is made), however the loads end and
    whatever events arrive, from the evaluation of the module on: the
    handlers of note-on and note-off events never find the audio context
    missing, that is, neither of the two guards on the context ever logs
    its message. *)
Theorem guards_on_the_context_never_fire os :
  (console_error (Error context_not_initialized)
     ∉ console (bindings (history os module_loaded)))
  /\ (console_error_text context_not_initialized
        ∉ console (bindings (history os module_loaded))).
Proof.
  destruct (history_invariant os module_loaded module_loaded_invariant)
    as (_ & _ & _ & _ & He).
  exact He.
Qed.

(** X12. The ready event is dispatched on a target exactly when a pair of
    listeners is attached to it, so the two lists agree in every page the
    module can be in; and a note-on or note-off event passing a target on
    which no ready event has been dispatched changes nothing at all. *)
Theorem events_before_ready_are_ignored os target :
  listeners (history os module_loaded)
  = ready_dispatched (history os module_loaded)
  /\ (target ∉ ready_dispatched (history os module_loaded) ->
      (forall detail,
         occur (note_on_at target detail) (history os module_loaded)
         = history os module_loaded)
      /\ (forall uuid,
            occur (note_off_at target uuid) (history os module_loaded)
            = history os module_loaded)).
Proof.
  destruct (history_invariant os module_loaded module_loaded_invariant)
    as (Ha & _).
  split; [exact Ha|]. intros Hnot. rewrite <- Ha in Hnot.
  split; intros x; cbn [occur]; unfold dispatch;
    rewrite (filter_absent _ _ Hnot); cbn;
    destruct (history os module_loaded); reflexivity.
Qed.

Lemma events_before_ready_are_ignored_witness :
  occur (note_off_at 3%nat "e4") (history a_session module_loaded)
  = history a_session module_loaded.
Proof.
  apply (proj2 (events_before_ready_are_ignored a_session 3%nat)).
  change (ready_dispatched (history a_session module_loaded))
    with [document_body].
  intros H. apply list_elem_of_singleton in H. discriminate.
Defined.

(** X13. Listeners are attached only by the callback of a load that
    succeeded: in every page the module can be in, as soon as a pair of
    listeners is attached the audio context, the catalog and the decoded
    sprite are all installed. *)
Theorem listening_means_loaded os :
  listeners (history os module_loaded) <> [] ->
  is_Some (webNoteAudioContext (bindings (history os module_loaded)))
  /\ is_Some (audioSpriteInstrumentsData (bindings (history os module_loaded)))
  /\ is_Some (audioSpriteBuffer (bindings (history os module_loaded))).
Proof.
  destruct (history_invariant os module_loaded module_loaded_invariant)
    as (_ & _ & _ & Hd & _).
  exact Hd.
Qed.

Lemma listening_means_loaded_witness :
  is_Some (webNoteAudioContext (bindings (history a_session module_loaded)))
  /\ is_Some
       (audioSpriteInstrumentsData (bindings (history a_session module_loaded)))
  /\ is_Some (audioSpriteBuffer (bindings (history a_session module_loaded))).
Proof.
  apply (listening_means_loaded a_session).
  change (listeners (history a_session module_loaded)) with [document_body].
  discriminate.
Defined.

Lemma handle_on_allocates detail st ctx :
  webNoteAudioContext st = Some ctx ->
  exists ctx',
    webNoteAudioContext (handle (web_note_player_on detail) st) = Some ctx'
    /\ allocated ctx' = S (S (allocated ctx)).
Proof.
  intros Hctx. cbn [handle].
  destruct (webNotePlayerOn_paths st
              (detail_instrumentAudio detail) (detail_midiNoteNumber detail)
              (detail_uuid detail) (detail_noteDuration detail)
              (detail_noteVolume detail) (detail_noteDelay detail))
    as [(Hnone & _)
       | [(c & e & st1 & Hc & _ & ->)
         | (c & d & st1 & looping & t' & Hc & _ & _ & ->)]].
  - congruence.
  - assert (c = ctx) as -> by congruence. cbn. eauto.
  - assert (c = ctx) as -> by congruence. cbn. eauto.
Qed.

Lemma iter_on_allocates detail k : forall st ctx,
  webNoteAudioContext st = Some ctx ->
  exists ctx',
    webNoteAudioContext (Nat.iter k (handle (web_note_player_on detail)) st)
    = Some ctx'
    /\ allocated ctx' = (allocated ctx + 2 * k)%nat.
Proof.
  induction k as [|k IH]; intros st ctx Hctx.
  - exists ctx. split; [exact Hctx | lia].
  - destruct (IH st ctx Hctx) as (c1 & Hc1 & Ha1).
    destruct (handle_on_allocates detail _ c1 Hc1) as (c2 & Hc2 & Ha2).
    exists c2. split; [exact Hc2 | lia].
Qed.

Lemma occur_listeners o pg : listeners pg `prefix_of` listeners (occur o pg).
Proof.
  destruct o as [url data target ctx | i result | i | target detail
                | target uuid | t]; cbn [occur].
  - unfold initWebNotePlayer, loadAudioSpriteFromUrl_begins.
    destruct (String.eqb url EmptyString); [reflexivity|].
    destruct data; [|reflexivity]. cbn. reflexivity.
  - unfold loadAudioSpriteFromUrl_settles.
    destruct (loads pg !! i) as [ld|]; [|reflexivity].
    destruct (fulfilled ld); [reflexivity|].
    destruct result; reflexivity.
  - unfold then_callback.
    destruct (loads pg !! i) as [ld|]; [|reflexivity].
    destruct (fulfilled ld); [|reflexivity].
    cbn. apply prefix_app_r. reflexivity.
  - reflexivity.
  - reflexivity.
  - reflexivity.
Qed.

(** X14. Listeners are never removed: along every history the list of
    attached pairs only grows at the end. And every pair attached to a
    target handles a note-on event passing it: on an initialised player the
    event makes the context hand out two nodes for each pair, so a player
    initialised twice on the same target schedules every note twice. *)
Theorem every_listener_pair_handles_the_event :
  (forall os pg, listeners pg `prefix_of` listeners (history os pg))
  /\
  (forall pg target detail ctx,
     webNoteAudioContext (bindings pg) = Some ctx ->
     exists ctx',
       webNoteAudioContext (bindings (occur (note_on_at target detail) pg))
       = Some ctx'
       /\ allocated ctx'
          = (allocated ctx
             + 2 * length (List.filter (Nat.eqb target) (listeners pg)))%nat).
Proof.
  split.
  - intros os. induction os as [|o os IH]; intros pg; [reflexivity|].
    change (history (o :: os) pg) with (history os (occur o pg)).
    etransitivity; [apply occur_listeners | apply IH].
  - intros pg target detail ctx Hctx. cbn [occur]. unfold dispatch. cbn.
    apply iter_on_allocates. exact Hctx.
Qed.

Lemma every_listener_pair_handles_the_event_witness :
  exists ctx',
    webNoteAudioContext
      (bindings
         (occur (note_on_at document_body
                   {| detail_instrumentAudio := "guitar";
                      detail_midiNoteNumber := 52;
                      detail_uuid := None; detail_noteDuration := None;
                      detail_noteVolume := None; detail_noteDelay := None |})
            (history initialised_twice module_loaded)))
    = Some ctx'
    /\ allocated ctx' = 4%nat.
Proof.
  apply (proj2 every_listener_pair_handles_the_event
           (history initialised_twice module_loaded) document_body
           {| detail_instrumentAudio := "guitar";
              detail_midiNoteNumber := 52;
              detail_uuid := None; detail_noteDuration := None;
              detail_noteVolume := None; detail_noteDelay := None |}
           new_AudioContext).
  vm_compute. reflexivity.
Defined.
